(** * Address book: validated fields, contact records and the birthday query

    A shallow embedding of [address_book.py].  The classes [Field], [Name],
    [Phone], [Birthday], [Record] and [AddressBook] become records and
    functions; exceptions become the [Raise] constructor of [Result];
    methods that mutate [self] return an [outcome] that carries the state
    of [self] at the moment the method returns or raises.

    The Python library functions the code calls ([str.isdigit], [len],
    [datetime.strptime], [date.replace], [date.weekday], [date + timedelta],
    [strftime]) are modelled after CPython 3.11 on Linux, with [str] as a
    sequence of Unicode code points. *)

From Stdlib Require Import ZArith List Bool Lia String Ascii Eqdep_dec.
Import ListNotations.
Local Open Scope Z_scope.

(** ** Strings and exceptions *)

(** A Python [str]: a sequence of Unicode code points. *)
Definition pystr := list Z.

(** The code points of an ASCII literal. *)
Definition str (s : string) : pystr :=
  map (fun a => Z.of_N (N_of_ascii a)) (list_ascii_of_string s).

Definition pystr_eq_dec : forall a b : pystr, {a = b} + {a <> b} :=
  list_eq_dec Z.eq_dec.

Definition pystr_eqb (a b : pystr) : bool :=
  if pystr_eq_dec a b then true else false.

(** The text of an exception: a literal, or one of the two formatted
    messages of [_strptime] that quote the offending data. *)
Inductive message :=
| Msg (text : string)
| MsgNoMatch (data : pystr)
| MsgUnconverted (rest : pystr).

Inductive exn :=
| ValueError (m : message)
| OverflowError (m : message).

Inductive Result (A : Type) :=
| OK (a : A)
| Raise (e : exn).
Arguments OK {A} a.
Arguments Raise {A} e.

Definition bind {A B} (r : Result A) (f : A -> Result B) : Result B :=
  match r with
  | OK a => f a
  | Raise e => Raise e
  end.

Notation "x <- r ;; k" := (bind r (fun x => k))
  (at level 61, r at next level, right associativity).

(** ** The proleptic Gregorian calendar of [datetime] *)

Module Calendar.

Definition MINYEAR : Z := 1.
Definition MAXYEAR : Z := 9999.
Definition MAXORDINAL : Z := 3652059.

Definition DAYS_IN_MONTH : list Z :=
  [-1; 31; 28; 31; 30; 31; 30; 31; 31; 30; 31; 30; 31].

Definition DAYS_BEFORE_MONTH : list Z :=
  [-1; 0; 31; 59; 90; 120; 151; 181; 212; 243; 273; 304; 334].

Definition tab (t : list Z) (i : Z) : Z := nth (Z.to_nat i) t 0.

(** [year % 4 == 0 and (year % 100 != 0 or year % 400 == 0)] *)
Definition is_leap (year : Z) : bool :=
  (year mod 4 =? 0) && (negb (year mod 100 =? 0) || (year mod 400 =? 0)).

Definition days_before_year (year : Z) : Z :=
  let y := year - 1 in
  y * 365 + y / 4 - y / 100 + y / 400.

Definition days_in_month (year month : Z) : Z :=
  if (month =? 2) && is_leap year then 29 else tab DAYS_IN_MONTH month.

Definition days_before_month (year month : Z) : Z :=
  tab DAYS_BEFORE_MONTH month
  + (if (month >? 2) && is_leap year then 1 else 0).

Definition ymd2ord (year month day : Z) : Z :=
  days_before_year year + days_before_month year month + day.

Definition DI400Y : Z := 146097.
Definition DI100Y : Z := 36524.
Definition DI4Y : Z := 1461.

(** The month and day of the [n]-th day (from 0) of a year. *)
Definition month_day (leapyear : bool) (n : Z) : Z * Z :=
  let month := Z.shiftr (n + 50) 5 in
  let preceding :=
    tab DAYS_BEFORE_MONTH month
    + (if (month >? 2) && leapyear then 1 else 0) in
  if preceding >? n then
    let month' := month - 1 in
    let preceding' :=
      preceding
      - (tab DAYS_IN_MONTH month'
         + (if (month' =? 2) && leapyear then 1 else 0)) in
    (month', n - preceding' + 1)
  else (month, n - preceding + 1).

Definition ord2ymd (n : Z) : Z * Z * Z :=
  let n := n - 1 in
  let n400 := n / DI400Y in
  let n := n mod DI400Y in
  let year := n400 * 400 + 1 in
  let n100 := n / DI100Y in
  let n := n mod DI100Y in
  let n4 := n / DI4Y in
  let n := n mod DI4Y in
  let n1 := n / 365 in
  let n := n mod 365 in
  let year := year + (n100 * 100 + n4 * 4 + n1) in
  if (n1 =? 4) || (n100 =? 4) then (year - 1, 12, 31)
  else
    let leapyear := (n1 =? 3) && (negb (n4 =? 24) || (n100 =? 3)) in
    let '(month, day) := month_day leapyear n in
    (year, month, day).

(** [_check_date_fields]: the test every [date] constructor performs. *)
Definition check_date_fields (year month day : Z) : bool :=
  (MINYEAR <=? year) && (year <=? MAXYEAR)
  && (1 <=? month) && (month <=? 12)
  && (1 <=? day) && (day <=? days_in_month year month).

(** The number of days of a year. *)
Definition year_length (y : Z) : Z := if is_leap y then 366 else 365.

(** The assertion at the end of [_ord2ymd], with the equation that makes
    the month and day the inverse of [_days_before_month]. *)
Definition month_day_ok (leap : bool) (n : Z) : bool :=
  let '(m, d) := month_day leap n in
  (1 <=? m) && (m <=? 12) && (1 <=? d)
  && (d <=? (if (m =? 2) && leap then 29 else tab DAYS_IN_MONTH m))
  && (tab DAYS_BEFORE_MONTH m + (if (m >? 2) && leap then 1 else 0) + d
      =? n + 1).

End Calendar.

(** ** Character classes of [str]

    Code-point ranges from the Unicode character database that CPython
    3.11 ships (Unicode 14.0). *)

Module Unicode.

(** Characters with Numeric_Type Decimal: what [str.isdecimal], the regex
    class [\d] and [int] accept.  Every range is a run of the ten digits
    zero to nine (U+1D7CE..U+1D7FF is five such runs). *)
Definition DECIMAL_RANGES : list (Z * Z) :=
  [(48, 57); (1632, 1641); (1776, 1785); (1984, 1993); (2406, 2415);
   (2534, 2543); (2662, 2671); (2790, 2799); (2918, 2927); (3046, 3055);
   (3174, 3183); (3302, 3311); (3430, 3439); (3558, 3567); (3664, 3673);
   (3792, 3801); (3872, 3881); (4160, 4169); (4240, 4249); (6112, 6121);
   (6160, 6169); (6470, 6479); (6608, 6617); (6784, 6793); (6800, 6809);
   (6992, 7001); (7088, 7097); (7232, 7241); (7248, 7257); (42528, 42537);
   (43216, 43225); (43264, 43273); (43472, 43481); (43504, 43513);
   (43600, 43609); (44016, 44025); (65296, 65305); (66720, 66729);
   (68912, 68921); (69734, 69743); (69872, 69881); (69942, 69951);
   (70096, 70105); (70384, 70393); (70736, 70745); (70864, 70873);
   (71248, 71257); (71360, 71369); (71472, 71481); (71904, 71913);
   (72016, 72025); (72784, 72793); (73040, 73049); (73120, 73129);
   (92768, 92777); (92864, 92873); (93008, 93017); (120782, 120831);
   (123200, 123209); (123632, 123641); (125264, 125273); (130032, 130041)].

(** Characters with Numeric_Type Digit or Decimal: what [str.isdigit]
    accepts (superscripts, circled digits and the like included). *)
Definition DIGIT_RANGES : list (Z * Z) :=
  [(48, 57); (178, 179); (185, 185); (1632, 1641); (1776, 1785);
   (1984, 1993); (2406, 2415); (2534, 2543); (2662, 2671); (2790, 2799);
   (2918, 2927); (3046, 3055); (3174, 3183); (3302, 3311); (3430, 3439);
   (3558, 3567); (3664, 3673); (3792, 3801); (3872, 3881); (4160, 4169);
   (4240, 4249); (4969, 4977); (6112, 6121); (6160, 6169); (6470, 6479);
   (6608, 6618); (6784, 6793); (6800, 6809); (6992, 7001); (7088, 7097);
   (7232, 7241); (7248, 7257); (8304, 8304); (8308, 8313); (8320, 8329);
   (9312, 9320); (9332, 9340); (9352, 9360); (9450, 9450); (9461, 9469);
   (9471, 9471); (10102, 10110); (10112, 10120); (10122, 10130);
   (42528, 42537); (43216, 43225); (43264, 43273); (43472, 43481);
   (43504, 43513); (43600, 43609); (44016, 44025); (65296, 65305);
   (66720, 66729); (68160, 68163); (68912, 68921); (69216, 69224);
   (69714, 69722); (69734, 69743); (69872, 69881); (69942, 69951);
   (70096, 70105); (70384, 70393); (70736, 70745); (70864, 70873);
   (71248, 71257); (71360, 71369); (71472, 71481); (71904, 71913);
   (72016, 72025); (72784, 72793); (73040, 73049); (73120, 73129);
   (92768, 92777); (92864, 92873); (93008, 93017); (120782, 120831);
   (123200, 123209); (123632, 123641); (125264, 125273); (127232, 127242);
   (130032, 130041)].

Definition in_range (c : Z) (r : Z * Z) : bool :=
  (fst r <=? c) && (c <=? snd r).

Definition in_ranges (t : list (Z * Z)) (c : Z) : bool :=
  existsb (in_range c) t.

Definition char_isdecimal (c : Z) : bool := in_ranges DECIMAL_RANGES c.
Definition char_isdigit (c : Z) : bool := in_ranges DIGIT_RANGES c.

(** The value of a decimal digit character, if it is one. *)
Definition decimal_value (c : Z) : option Z :=
  match find (in_range c) DECIMAL_RANGES with
  | Some (lo, _) => Some ((c - lo) mod 10)
  | None => None
  end.

(** The digits of ASCII. *)
Definition ascii_digit (c : Z) : bool := (48 <=? c) && (c <=? 57).

(** [str.isdigit]: at least one character, and all of them digits. *)
Definition isdigit (s : pystr) : bool :=
  match s with
  | [] => false
  | _ => forallb char_isdigit s
  end.

Definition len (s : pystr) : Z := Z.of_nat (List.length s).

Fixpoint digits_value (acc : Z) (s : pystr) : option Z :=
  match s with
  | [] => Some acc
  | c :: s' =>
      match decimal_value c with
      | Some v => digits_value (10 * acc + v) s'
      | None => None
      end
  end.

Fixpoint lstrip_space (s : pystr) : pystr :=
  match s with
  | c :: s' => if c =? 32 then lstrip_space s' else s
  | [] => []
  end.

(** [int(text)] on the text of a regex group of [_strptime]: leading
    blanks are skipped and the rest must be decimal digits.  (Signs and
    underscores, which [int] also understands, cannot occur in a group.) *)
Definition int (text : pystr) : Result Z :=
  match lstrip_space text with
  | [] => Raise (ValueError (Msg "invalid literal for int() with base 10"))
  | s =>
      match digits_value 0 s with
      | Some v => OK v
      | None =>
          Raise (ValueError (Msg "invalid literal for int() with base 10"))
      end
  end.

End Unicode.

(** ** [datetime.date] and [datetime.datetime] *)

(** A [date] object; the constructor's check is part of the value, as no
    [date] exists that fails it. *)
Record date := Date {
  year : Z;
  month : Z;
  day : Z;
  date_ok : Calendar.check_date_fields year month day = true
}.

(** The message of the [ValueError] of a [date] constructor (the one for
    the year without the number in it). *)
Definition date_error (y m d : Z) : message :=
  if negb ((Calendar.MINYEAR <=? y) && (y <=? Calendar.MAXYEAR))
  then Msg "year is out of range"
  else if negb ((1 <=? m) && (m <=? 12))
  then Msg "month must be in 1..12"
  else Msg "day is out of range for month".

(** [date(year, month, day)] *)
Definition new_date (y m d : Z) : Result date :=
  match Calendar.check_date_fields y m d as b
        return Calendar.check_date_fields y m d = b -> Result date with
  | true => fun H => OK (Date y m d H)
  | false => fun _ => Raise (ValueError (date_error y m d))
  end eq_refl.

Definition toordinal (d : date) : Z :=
  Calendar.ymd2ord (year d) (month d) (day d).

Definition fromordinal (n : Z) : Result date :=
  let '(y, m, d) := Calendar.ord2ymd n in new_date y m d.

(** [d + timedelta(days=n)] *)
Definition date_add (d : date) (days : Z) : Result date :=
  let o := toordinal d + days in
  if (0 <? o) && (o <=? Calendar.MAXORDINAL) then fromordinal o
  else Raise (OverflowError (Msg "date value out of range")).

(** [d.replace(year=y)] *)
Definition replace_year (d : date) (y : Z) : Result date :=
  new_date y (month d) (day d).

(** [d.weekday()]: Monday is 0, Sunday is 6. *)
Definition weekday (d : date) : Z := (toordinal d + 6) mod 7.

(** Comparison of dates is comparison of (year, month, day). *)
Definition date_cmp (a b : date) : comparison :=
  match year a ?= year b with
  | Eq => match month a ?= month b with
          | Eq => day a ?= day b
          | c => c
          end
  | c => c
  end.

Definition date_le (a b : date) : bool :=
  match date_cmp a b with Gt => false | _ => true end.

Definition digit_char (n : Z) : Z := 48 + n mod 10.

(** The year as [%Y] writes it through the C library ([strftime] of
    glibc, under CPython 3.11): the decimal number of the year, with no
    leading zeros, so a year below 1000 takes fewer than four digits. *)
Definition year_digits (y : Z) : pystr :=
  if y <? 10 then [digit_char y]
  else if y <? 100 then [digit_char (y / 10); digit_char y]
  else if y <? 1000
  then [digit_char (y / 100); digit_char (y / 10); digit_char y]
  else [digit_char (y / 1000); digit_char (y / 100); digit_char (y / 10);
        digit_char y].

(** [strftime("%d.%m.%Y")]: day and month on two digits, then the
    year. *)
Definition strftime_dmY (d : date) : pystr :=
  [digit_char (day d / 10); digit_char (day d); 46;
   digit_char (month d / 10); digit_char (month d); 46]
  ++ year_digits (year d).

Record datetime := DateTime {
  dt_date : date;
  hour : Z;
  minute : Z;
  second : Z;
  microsecond : Z
}.

(** What the process reads from its environment: the system clock.  It
    counts from an epoch of modern times (1970 on POSIX systems, 1601 on
    Windows), so the year it shows has four digits. *)
Record World := {
  clock : datetime;
  clock_year : (1000 <=? year (dt_date clock)) = true
}.

(** [datetime.today()] *)
Definition datetime_today (w : World) : datetime := clock w.

(** ** The regular expression of [_strptime] for ["%d.%m.%Y"] *)

Module Re.

Inductive regex :=
| Lit (c : Z)
| Range (lo hi : Z)
| Digit
| Cat (a b : regex)
| Alt (a b : regex)
| Group (name : string) (r : regex).

Definition groups := list (string * pystr).

(** One way of matching: the text matched, the text left, the groups. *)
Definition found := (pystr * pystr * groups)%type.

Definition one_char (p : Z -> bool) (s : pystr) (g : groups) : list found :=
  match s with
  | c :: s' => if p c then [([c], s', g)] else []
  | [] => []
  end.

(** All the ways a regex matches a prefix of [s], in the order the
    backtracking matcher tries them. *)
Fixpoint rmatch (r : regex) (s : pystr) (g : groups) : list found :=
  match r with
  | Lit c => one_char (Z.eqb c) s g
  | Range lo hi => one_char (fun x => (lo <=? x) && (x <=? hi)) s g
  | Digit => one_char Unicode.char_isdecimal s g
  | Cat a b =>
      flat_map
        (fun '(m1, s1, g1) =>
           map (fun '(m2, s2, g2) => (m1 ++ m2, s2, g2)) (rmatch b s1 g1))
        (rmatch a s g)
  | Alt a b => rmatch a s g ++ rmatch b s g
  | Group name r' =>
      map (fun '(m, s', g') => (m, s', (name, m) :: g')) (rmatch r' s g)
  end.

(** [pattern.match(s)]: the first way, if any. *)
Definition re_match (r : regex) (s : pystr) : option found :=
  hd_error (rmatch r s []).

Fixpoint group (g : groups) (name : string) : pystr :=
  match g with
  | [] => []
  | (n, m) :: g' => if String.eqb n name then m else group g' name
  end.

(** [(?P<d>3[0-1]|[1-2]\d|0[1-9]|[1-9]| [1-9])] *)
Definition directive_d : regex :=
  Group "d"
    (Alt (Cat (Lit 51) (Range 48 49))
    (Alt (Cat (Range 49 50) Digit)
    (Alt (Cat (Lit 48) (Range 49 57))
    (Alt (Range 49 57)
         (Cat (Lit 32) (Range 49 57)))))).

(** [(?P<m>1[0-2]|0[1-9]|[1-9])] *)
Definition directive_m : regex :=
  Group "m"
    (Alt (Cat (Lit 49) (Range 48 50))
    (Alt (Cat (Lit 48) (Range 49 57))
         (Range 49 57))).

(** [(?P<Y>\d\d\d\d)] *)
Definition directive_Y : regex :=
  Group "Y" (Cat Digit (Cat Digit (Cat Digit Digit))).

(** The pattern [TimeRE.pattern] builds for ["%d.%m.%Y"]. *)
Definition format_regex : regex :=
  Cat directive_d (Cat (Lit 46) (Cat directive_m (Cat (Lit 46) directive_Y))).

End Re.

(** [datetime.strptime(data_string, "%d.%m.%Y")] *)
Definition strptime (data_string : pystr) : Result datetime :=
  match Re.re_match Re.format_regex data_string with
  | None => Raise (ValueError (MsgNoMatch data_string))
  | Some (_, rest, found) =>
      match rest with
      | _ :: _ => Raise (ValueError (MsgUnconverted rest))
      | [] =>
          d <- Unicode.int (Re.group found "d") ;;
          m <- Unicode.int (Re.group found "m") ;;
          y <- Unicode.int (Re.group found "Y") ;;
          dt <- new_date y m d ;;
          OK (DateTime dt 0 0 0 0)
      end
  end.

(** ** Fields *)

Record Name := { name_value : pystr }.
Record Phone := { phone_value : pystr }.
Record Birthday := { birthday_value : datetime }.

Definition PHONE_ERROR : exn :=
  ValueError (Msg "Phone number must be exactly 10 digits.").

Definition BIRTHDAY_ERROR : exn :=
  ValueError (Msg "Invalid date format. Use DD.MM.YYYY").

(** [Phone.__init__] *)
Definition Phone_init (value : pystr) : Result Phone :=
  if negb (Unicode.isdigit value) || negb (Unicode.len value =? 10)
  then Raise PHONE_ERROR
  else OK {| phone_value := value |}.

(** [Birthday.__init__]: a [ValueError] of [strptime] is replaced by the
    class's own; nothing else is caught. *)
Definition Birthday_init (value : pystr) : Result Birthday :=
  match strptime value with
  | OK birthday => OK {| birthday_value := birthday |}
  | Raise (ValueError _) => Raise BIRTHDAY_ERROR
  | Raise e => Raise e
  end.

(** ** Methods that mutate [self] *)

(** How a method call ends, with the state [self] is left in. *)
Inductive outcome (S A : Type) :=
| Returns (self : S) (v : A)
| Raises (self : S) (e : exn).
Arguments Returns {S A} self v.
Arguments Raises {S A} self e.

Definition method (S A : Type) := S -> outcome S A.

Definition mret {S A} (v : A) : method S A := fun self => Returns self v.

Definition mbind {S A B} (m : method S A) (k : A -> method S B)
  : method S B :=
  fun self =>
    match m self with
    | Returns self' v => k v self'
    | Raises self' e => Raises self' e
    end.

(** Evaluate an expression that does not touch [self]. *)
Definition eval {S A} (r : Result A) : method S A :=
  fun self =>
    match r with
    | OK v => Returns self v
    | Raise e => Raises self e
    end.

Definition modify {S} (f : S -> S) : method S unit :=
  fun self => Returns (f self) tt.

Notation "x <~ m ;; k" := (mbind m (fun x => k))
  (at level 61, m at next level, right associativity).

(** ** Contact records *)

Record ContactRecord := {
  name : Name;
  phones : list Phone;
  birthday : option Birthday
}.

(** [Record.__init__] *)
Definition Record_init (n : pystr) : ContactRecord :=
  {| name := {| name_value := n |}; phones := []; birthday := None |}.

Definition set_phones (ps : list Phone) (r : ContactRecord) : ContactRecord :=
  {| name := name r; phones := ps; birthday := birthday r |}.

Definition set_birthday (b : option Birthday) (r : ContactRecord)
  : ContactRecord :=
  {| name := name r; phones := phones r; birthday := b |}.

(** [self.phones.append(Phone(phone))] *)
Definition add_phone (phone : pystr) : method ContactRecord unit :=
  p <~ eval (Phone_init phone) ;;
  modify (fun self => set_phones (phones self ++ [p]) self).

(** [self.phones = [p for p in self.phones if p.value != phone]] *)
Definition remove_phone (phone : pystr) : method ContactRecord unit :=
  modify (fun self =>
    set_phones
      (filter (fun p => negb (pystr_eqb (phone_value p) phone)) (phones self))
      self).

(** The loop of [edit_phone]: each [Phone] object is visited once and
    assigned to when its value equals [old_phone]. *)
Fixpoint edit_loop (old_phone new_phone : pystr) (ps : list Phone)
  : list Phone :=
  match ps with
  | [] => []
  | p :: rest =>
      (if pystr_eqb (phone_value p) old_phone
       then {| phone_value := new_phone |}
       else p) :: edit_loop old_phone new_phone rest
  end.

Definition edit_phone (old_phone new_phone : pystr)
  : method ContactRecord unit :=
  modify (fun self =>
    set_phones (edit_loop old_phone new_phone (phones self)) self).

Fixpoint find_loop (phone : pystr) (ps : list Phone) : option Phone :=
  match ps with
  | [] => None
  | p :: rest =>
      if pystr_eqb (phone_value p) phone then Some p
      else find_loop phone rest
  end.

Definition find_phone (phone : pystr) (self : ContactRecord) : option Phone :=
  find_loop phone (phones self).

(** [self.birthday = Birthday(birthday)] *)
Definition add_birthday (s : pystr) : method ContactRecord unit :=
  b <~ eval (Birthday_init s) ;;
  modify (set_birthday (Some b)).

(** [get_birthday]: a [Birthday] object is always true, [None] never. *)
Definition get_birthday (self : ContactRecord) : option pystr :=
  match birthday self with
  | Some b => Some (strftime_dmY (dt_date (birthday_value b)))
  | None => None
  end.

(** ** The address book *)

(** The [dict] under [UserDict.data]: keys in insertion order. *)
Definition dict := list (pystr * ContactRecord).

Record AddressBook := { data : dict }.

Definition empty_book : AddressBook := {| data := [] |}.

(** [d[k] = v]: an existing key keeps its place, a new one goes last. *)
Fixpoint dict_set (k : pystr) (v : ContactRecord) (d : dict) : dict :=
  match d with
  | [] => [(k, v)]
  | (k', v') :: d' =>
      if pystr_eqb k' k then (k', v) :: d'
      else (k', v') :: dict_set k v d'
  end.

Fixpoint dict_get (k : pystr) (d : dict) : option ContactRecord :=
  match d with
  | [] => None
  | (k', v') :: d' => if pystr_eqb k' k then Some v' else dict_get k d'
  end.

Definition dict_contains (k : pystr) (d : dict) : bool :=
  match dict_get k d with Some _ => true | None => false end.

(** [del d[k]], for a key that is present. *)
Fixpoint dict_del (k : pystr) (d : dict) : dict :=
  match d with
  | [] => []
  | (k', v') :: d' =>
      if pystr_eqb k' k then d' else (k', v') :: dict_del k d'
  end.

Definition dict_values (d : dict) : list ContactRecord := map snd d.

(** [self.data[record.name.value] = record] *)
Definition add_record (record : ContactRecord) : method AddressBook unit :=
  modify (fun self =>
    {| data := dict_set (name_value (name record)) record (data self) |}).

(** [self.data.get(name)] *)
Definition find (n : pystr) (self : AddressBook) : option ContactRecord :=
  dict_get n (data self).

Definition delete (n : pystr) : method AddressBook unit :=
  modify (fun self =>
    if dict_contains n (data self)
    then {| data := dict_del n (data self) |}
    else self).

(** One element of the list [get_upcoming_birthdays] returns. *)
Record entry := {
  entry_name : pystr;
  congratulation_date : pystr
}.

(** The body of the loop of [get_upcoming_birthdays] for one record;
    [birthdays] is the list built so far. *)
Definition birthday_step (date_today date_today_plus_week : date)
    (record : ContactRecord) (birthdays : list entry)
  : Result (list entry) :=
  match birthday record with
  | None => OK birthdays
  | Some b =>
      let user_birthday := dt_date (birthday_value b) in
      user_birthday <- replace_year user_birthday (year date_today) ;;
      if date_le date_today user_birthday
         && date_le user_birthday date_today_plus_week
      then
        user_birthday <-
          (if (weekday user_birthday =? 5) || (weekday user_birthday =? 6)
           then date_add user_birthday (7 - weekday user_birthday)
           else OK user_birthday) ;;
        OK (birthdays ++
            [{| entry_name := name_value (name record);
                congratulation_date := strftime_dmY user_birthday |}])
      else OK birthdays
  end.

Fixpoint birthday_loop (date_today date_today_plus_week : date)
    (records : list ContactRecord) (birthdays : list entry)
  : Result (list entry) :=
  match records with
  | [] => OK birthdays
  | record :: rest =>
      birthdays' <-
        birthday_step date_today date_today_plus_week record birthdays ;;
      birthday_loop date_today date_today_plus_week rest birthdays'
  end.

(** [get_upcoming_birthdays]: the method takes no argument besides
    [self]; the date comes from the clock. *)
Definition get_upcoming_birthdays (self : AddressBook) (w : World)
  : Result (list entry) :=
  let date_today := dt_date (datetime_today w) in
  date_today_plus_week <- date_add date_today 7 ;;
  birthday_loop date_today date_today_plus_week
    (dict_values (data self)) [].

(** ** Sequences of directory operations *)

Definition state_of {S A} (o : outcome S A) : S :=
  match o with
  | Returns self _ => self
  | Raises self _ => self
  end.

(** The operations a caller performs on a directory. *)
Inductive op :=
| OpAddRecord (record : ContactRecord)
| OpFind (n : pystr)
| OpDelete (n : pystr).

(** The directory after one operation; [find] only reads. *)
Definition run_op (o : op) (book : AddressBook) : AddressBook :=
  match o with
  | OpAddRecord record => state_of (add_record record book)
  | OpFind n => let _ := find n book in book
  | OpDelete n => state_of (delete n book)
  end.

Inductive reachable : AddressBook -> Prop :=
| reach_empty : reachable empty_book
| reach_step (book : AddressBook) (o : op) :
    reachable book -> reachable (run_op o book).

(** Keys mirror names, and no key occurs twice. *)
Definition keys_mirror_names (d : dict) : Prop :=
  forall k r, In (k, r) d -> name_value (name r) = k.

Definition keys_unique (d : dict) : Prop := NoDup (map fst d).

(** ** The text of a date *)

(** The numbers a text in the form DD.MM.YYYY denotes: two ASCII digits,
    a dot, two ASCII digits, a dot, four ASCII digits. *)
Definition canonical_fields (s : pystr) : option (Z * Z * Z) :=
  match s with
  | [d1; d2; p1; m1; m2; p2; y1; y2; y3; y4] =>
      if forallb Unicode.ascii_digit [d1; d2; m1; m2; y1; y2; y3; y4]
         && (p1 =? 46) && (p2 =? 46)
      then Some (1000 * (y1 - 48) + 100 * (y2 - 48) + 10 * (y3 - 48)
                 + (y4 - 48),
                 10 * (m1 - 48) + (m2 - 48),
                 10 * (d1 - 48) + (d2 - 48))
      else None
  | _ => None
  end.

(** [text] is the date [d] written as DD.MM.YYYY. *)
Definition renders (d : date) (text : pystr) : Prop :=
  canonical_fields text = Some (year d, month d, day d).

(** A text in the form DD.MM.YYYY of a date of the calendar. *)
Definition canonical_birthday (s : pystr) : bool :=
  match canonical_fields s with
  | Some (y, m, d) => Calendar.check_date_fields y m d
  | None => false
  end.

(** The congratulation date of an occurrence: the Monday after a
    Saturday (two days on) or a Sunday (one day on), the day itself from
    Monday to Friday; written as DD.MM.YYYY. *)
Definition congratulated_on (occurrence : date) (text : pystr) : Prop :=
  exists d,
    renders d text
    /\ (weekday occurrence = 5 ->
        toordinal d = toordinal occurrence + 2 /\ weekday d = 0)
    /\ (weekday occurrence = 6 ->
        toordinal d = toordinal occurrence + 1 /\ weekday d = 0)
    /\ (0 <= weekday occurrence <= 4 -> d = occurrence).

(** The occurrence of a birthday in the year of [today]. *)
Definition is_occurrence (today : date) (b : Birthday) (occurrence : date)
  : Prop :=
  year occurrence = year today
  /\ month occurrence = month (dt_date (birthday_value b))
  /\ day occurrence = day (dt_date (birthday_value b)).

Definition today_of (w : World) : date := dt_date (datetime_today w).

(** ** What the pattern of ["%d.%m.%Y"] accepts *)

(** A regex matches the text [m], taking the groups from [g] to [g']. *)
Inductive matches : Re.regex -> Re.groups -> pystr -> Re.groups -> Prop :=
| M_Lit c g : matches (Re.Lit c) g [c] g
| M_Range lo hi x g :
    lo <= x <= hi -> matches (Re.Range lo hi) g [x] g
| M_Digit x g :
    Unicode.char_isdecimal x = true -> matches Re.Digit g [x] g
| M_Cat a b g g1 g2 m1 m2 :
    matches a g m1 g1 -> matches b g1 m2 g2 ->
    matches (Re.Cat a b) g (m1 ++ m2) g2
| M_AltL a b g g' m : matches a g m g' -> matches (Re.Alt a b) g m g'
| M_AltR a b g g' m : matches b g m g' -> matches (Re.Alt a b) g m g'
| M_Group n r g g' m :
    matches r g m g' -> matches (Re.Group n r) g m ((n, m) :: g').

(** The texts of a day of the month and the numbers they denote: one
    digit, alone or after a blank or a zero; a 1 or a 2 and one more
    decimal digit (of any script); 30 or 31. *)
Inductive day_text : pystr -> Z -> Prop :=
| day_one c : 49 <= c <= 57 -> day_text [c] (c - 48)
| day_blank c : 49 <= c <= 57 -> day_text [32; c] (c - 48)
| day_zero c : 49 <= c <= 57 -> day_text [48; c] (c - 48)
| day_tens a c v :
    49 <= a <= 50 -> Unicode.decimal_value c = Some v ->
    day_text [a; c] (10 * (a - 48) + v)
| day_thirty c : 48 <= c <= 49 -> day_text [51; c] (30 + (c - 48)).

(** The texts of a month: one digit, alone or after a zero; 10, 11, 12. *)
Inductive month_text : pystr -> Z -> Prop :=
| month_one c : 49 <= c <= 57 -> month_text [c] (c - 48)
| month_zero c : 49 <= c <= 57 -> month_text [48; c] (c - 48)
| month_ten c : 48 <= c <= 50 -> month_text [49; c] (10 + (c - 48)).

(** The text of a year: four decimal digits. *)
Definition year_text (t : pystr) (v : Z) : Prop :=
  List.length t = 4%nat /\ Unicode.digits_value 0 t = Some v.

(** [s] is day.month.year, as [strptime] reads it. *)
Definition day_month_year (s : pystr) (d m y : Z) : Prop :=
  exists dt mt yt,
    s = dt ++ [46] ++ mt ++ [46] ++ yt
    /\ day_text dt d /\ month_text mt m /\ year_text yt y.

(** The record has no birthday on 29 February, or the year has one. *)
Definition has_occurrence_in (y : Z) (r : ContactRecord) : bool :=
  match birthday r with
  | None => true
  | Some b =>
      let d := dt_date (birthday_value b) in
      negb ((month d =? 2) && (day d =? 29)) || Calendar.is_leap y
  end.

(** The record [r] makes the query emit the entry [e]. *)
Definition emitted (today end_of_window : date) (r : ContactRecord)
    (e : entry) : Prop :=
  exists b occ,
    birthday r = Some b
    /\ replace_year (dt_date (birthday_value b)) (year today) = OK occ
    /\ date_le today occ && date_le occ end_of_window = true
    /\ entry_name e = name_value (name r)
    /\ congratulated_on occ (congratulation_date e).

(** ** Sample data *)

(** The ten Arabic-Indic digits U+0660..U+0669. *)
Definition arabic_indic_digits : pystr :=
  [1632; 1633; 1634; 1635; 1636; 1637; 1638; 1639; 1640; 1641].

(** A record with one phone and a birthday. *)
Definition kate : ContactRecord :=
  {| name := {| name_value := str "kate" |};
     phones := [{| phone_value := str "1234567890" |}];
     birthday :=
       Some {| birthday_value :=
                 DateTime (Date 1990 6 12 eq_refl) 0 0 0 0 |} |}.

Definition bob : ContactRecord := Record_init (str "bob").

(** [kate] and [bob] added, [kate] added again, looked up and deleted. *)
Definition sample_ops : list op :=
  [OpAddRecord kate; OpAddRecord bob; OpAddRecord kate;
   OpFind (str "kate"); OpDelete (str "kate")].

Definition sample_book : AddressBook :=
  fold_left (fun book o => run_op o book) sample_ops empty_book.

Definition born (n : pystr) (y m d : Z)
    (H : Calendar.check_date_fields y m d = true) : ContactRecord :=
  {| name := {| name_value := n |};
     phones := [];
     birthday :=
       Some {| birthday_value := DateTime (Date y m d H) 0 0 0 0 |} |}.

(** Born on 15.06.1985: a Saturday in 2024. *)
Definition sam : ContactRecord := born (str "sam") 1985 6 15 eq_refl.

(** Born on 17.06.1990: seven days after 10.06.2024. *)
Definition dana : ContactRecord := born (str "dana") 1990 6 17 eq_refl.

(** Born on 01.01.1990. *)
Definition jan : ContactRecord := born (str "jan") 1990 1 1 eq_refl.

(** Born on a leap day. *)
Definition leo : ContactRecord := born (str "leo") 2000 2 29 eq_refl.

Definition book_of (records : list ContactRecord) : AddressBook :=
  fold_left (fun book r => run_op (OpAddRecord r) book) records empty_book.

(** The clock at the given time of Monday 10 June 2024. *)
Definition monday_10_june_2024 (h m : Z) : World :=
  {| clock := DateTime (Date 2024 6 10 eq_refl) h m 0 0;
     clock_year := eq_refl |}.

Definition andb_left (a b : bool) : a && b = true -> a = true :=
  match a with
  | true => fun _ => eq_refl
  | false => fun H => H
  end.

Definition andb_right (a b : bool) : a && b = true -> b = true :=
  match a with
  | true => fun H => H
  | false => fun H => match Bool.diff_false_true H with end
  end.

(** The clock at noon of the given day, a day of the calendar in a year
    of four digits. *)
Definition world_on (y m d : Z)
    (H : Calendar.check_date_fields y m d && (1000 <=? y) = true) : World :=
  {| clock := DateTime (Date y m d (andb_left _ _ H)) 12 0 0 0;
     clock_year := andb_right _ _ H |}.

(** The year a text in the form DD.MM.YYYY names (0 for other texts). *)
Definition year_of_text (s : pystr) : Z :=
  match canonical_fields s with
  | Some (y, _, _) => y
  | None => 0
  end.

Definition entry_of (n text : string) : entry :=
  {| entry_name := str n; congratulation_date := str text |}.

(** ** More of the record and of the directory *)

(** Every phone of the record passes the check of [Phone]. *)
Definition valid_phones (r : ContactRecord) : Prop :=
  forall p, In p (phones r) -> Phone_init (phone_value p) = OK p.

(** [sep.join(parts)] *)
Fixpoint join (sep : pystr) (parts : list pystr) : pystr :=
  match parts with
  | [] => []
  | [x] => x
  | x :: rest => x ++ sep ++ join sep rest
  end.

(** [l1] is [l2] with some elements left out. *)
Inductive subseq {A : Type} : list A -> list A -> Prop :=
| subseq_nil : subseq [] []
| subseq_skip x l1 l2 : subseq l1 l2 -> subseq l1 (x :: l2)
| subseq_take x l1 l2 : subseq l1 l2 -> subseq (x :: l1) (x :: l2).

(** The birthday falls earlier in the year than [today]. *)
Definition earlier_in_year (b : Birthday) (today : date) : Prop :=
  let d := dt_date (birthday_value b) in
  month d < month today \/ (month d = month today /\ day d < day today).

Definition record_name (r : ContactRecord) : pystr := name_value (name r).

(** ** The command handlers of [main.py] *)

Module Main.

(** The exceptions the handlers meet: those of the address book, and
    [KeyError] and [IndexError] with their argument. *)
Inductive pyexn :=
| Core (e : exn)
| KeyError (arg : pystr)
| IndexError (msg : pystr).

(** How the body of a handler ends, with the directory as it is then. *)
Inductive result (A : Type) :=
| Done (book : AddressBook) (v : A)
| Failed (book : AddressBook) (e : pyexn).
Arguments Done {A} book v.
Arguments Failed {A} book e.

Definition value_error (text : string) : pyexn := Core (ValueError (Msg text)).

(** The record object found under the key [n] is mutated in place: the
    state a record method leaves, returning or raising, is what the
    directory holds under [n] afterwards. *)
Definition store (n : pystr) (r : ContactRecord) (book : AddressBook)
  : AddressBook :=
  {| data := dict_set n r (data book) |}.

Definition on_record {A} (n : pystr) (o : outcome ContactRecord A)
    (book : AddressBook) : result A :=
  match o with
  | Returns r' v => Done (store n r' book) v
  | Raises r' e => Failed (store n r' book) (Core e)
  end.

Definition returning {A B} (v : B) (r : result A) : result B :=
  match r with
  | Done book _ => Done book v
  | Failed book e => Failed book e
  end.

Section Handlers.

(** [repr] of a [str], which [str(e)] is for a [KeyError], and
    [tabulate] with the headers and the format of [birthdays]. *)
Variable repr : pystr -> pystr.
Variable tabulate : list (list pystr) -> pystr.

(** [str(e)] for the exceptions of the address book. *)
Definition str_of_message (m : message) : pystr :=
  match m with
  | Msg text => str text
  | MsgNoMatch data_string =>
      str "time data " ++ repr data_string
      ++ str " does not match format " ++ repr (str "%d.%m.%Y")
  | MsgUnconverted rest => str "unconverted data remains: " ++ rest
  end.

(** The decorator [input_error]: what the wrapped handler returns, and
    the directory it leaves. *)
Definition input_error (r : result pystr) : pystr * AddressBook :=
  match r with
  | Done book v => (v, book)
  | Failed book (Core (ValueError m)) =>
      (str "ValueError: " ++ str_of_message m, book)
  | Failed book (KeyError arg) => (str "KeyError: " ++ repr arg, book)
  | Failed book (IndexError msg) => (str "IndexError: " ++ msg, book)
  | Failed book (Core (OverflowError m)) =>
      (str "Unexpected error: " ++ str_of_message m, book)
  end.

Definition add_contact_body (args : list pystr) (book : AddressBook)
  : result pystr :=
  match args with
  | n :: phone :: _ =>
      let '(record, book1, message) :=
        match find n book with
        | None =>
            let record := Record_init n in
            (record, state_of (add_record record book),
             str "Contact added.")
        | Some record => (record, book, str "Contact updated.")
        end in
      match phone with
      | [] => Done book1 message
      | _ => returning message (on_record n (add_phone phone record) book1)
      end
  | _ =>
      Failed book
        (value_error "Name or number are missing. usage: add <name> <number>")
  end.

Definition add_contact (args : list pystr) (book : AddressBook)
  : pystr * AddressBook :=
  input_error (add_contact_body args book).

Definition change_contact_body (args : list pystr) (book : AddressBook)
  : result pystr :=
  match args with
  | [n; old_phone; new_phone] =>
      match find n book with
      | None =>
          Failed book
            (KeyError (str "No such name '" ++ n ++ str "' was found"))
      | Some record =>
          returning (str "Contact changed.")
            (on_record n (edit_phone old_phone new_phone record) book)
      end
  | _ :: _ :: _ :: _ :: _ =>
      Failed book (value_error "too many values to unpack (expected 3)")
  | _ =>
      Failed book
        (value_error
           "Some details are missing. usage: change <name> <old_number> <new_number>")
  end.

Definition change_contact (args : list pystr) (book : AddressBook)
  : pystr * AddressBook :=
  input_error (change_contact_body args book).

Definition show_phone_body (args : list pystr) (book : AddressBook)
  : result pystr :=
  match args with
  | [] => Failed book (IndexError (str "Name is missing. usage: phone <name>"))
  | n :: _ =>
      match find n book with
      | None =>
          Failed book (KeyError (str "Contact " ++ n ++ str " not found."))
      | Some record =>
          Done book (join (str "; ") (map phone_value (phones record)))
      end
  end.

Definition show_phone (args : list pystr) (book : AddressBook)
  : pystr * AddressBook :=
  input_error (show_phone_body args book).

(** The first test is on the directory, not on [args]. *)
Definition delete_contact_body (args : list pystr) (book : AddressBook)
  : result pystr :=
  match data book with
  | [] =>
      Failed book (IndexError (str "Name is missing. usage: delete <name>"))
  | _ =>
      match args with
      | [] => Failed book (IndexError (str "list index out of range"))
      | n :: _ =>
          match find n book with
          | None =>
              Failed book
                (KeyError (str "Contact " ++ n ++ str " not found."))
          | Some _ =>
              Done (state_of (delete n book))
                (str "Contact successfully deleted")
          end
      end
  end.

Definition delete_contact (args : list pystr) (book : AddressBook)
  : pystr * AddressBook :=
  input_error (delete_contact_body args book).

Definition add_birthday_body (args : list pystr) (book : AddressBook)
  : result pystr :=
  match args with
  | [n; birthday] =>
      match find n book with
      | None =>
          Failed book (KeyError (str "Contact " ++ n ++ str " not found."))
      | Some record =>
          returning (str "Contact updated")
            (on_record n (add_birthday birthday record) book)
      end
  | _ :: _ :: _ :: _ =>
      Failed book (value_error "too many values to unpack (expected 2)")
  | _ =>
      Failed book
        (IndexError
           (str "Some details are missing. usage: add-birthday <name> <birthday>"))
  end.

Definition add_birthday (args : list pystr) (book : AddressBook)
  : pystr * AddressBook :=
  input_error (add_birthday_body args book).

Definition show_birthday_body (args : list pystr) (book : AddressBook)
  : result pystr :=
  match args with
  | [] =>
      Failed book
        (IndexError (str "Name is missing. usage: show-birthday <name>"))
  | n :: _ =>
      match find n book with
      | None =>
          Failed book (KeyError (str "Contact " ++ n ++ str " not found."))
      | Some record =>
          match get_birthday record with
          | None =>
              Failed book
                (KeyError (str "Contact " ++ n ++ str " has no birthday."))
          | Some birthday => Done book birthday
          end
      end
  end.

Definition show_birthday (args : list pystr) (book : AddressBook)
  : pystr * AddressBook :=
  input_error (show_birthday_body args book).

Definition birthdays_body (book : AddressBook) (w : World) : result pystr :=
  match get_upcoming_birthdays book w with
  | Raise e => Failed book (Core e)
  | OK [] =>
      Failed book
        (IndexError
           (str "No contacts that need to be congratulated by day next week."))
  | OK birthdays =>
      Done book
        (tabulate
           (map (fun key => [entry_name key; congratulation_date key])
              birthdays))
  end.

Definition birthdays (book : AddressBook) (w : World)
  : pystr * AddressBook :=
  input_error (birthdays_body book w).

End Handlers.

(** A stand-in for [repr] and for [tabulate] in the examples. *)
Definition quoted (s : pystr) : pystr := [39] ++ s ++ [39].
Definition rows (table : list (list pystr)) : pystr :=
  join [10] (map (join [32]) table).

End Main.

(** The directory is well formed: keys mirror names and are unique. *)
Definition book_inv (book : AddressBook) : Prop :=
  keys_mirror_names (data book) /\ keys_unique (data book).

(** The directory a handler's body leaves. *)
Definition result_book {A} (r : Main.result A) : AddressBook :=
  match r with
  | Main.Done book _ => book
  | Main.Failed book _ => book
  end.

(** * Properties *)

(** ** The calendar: ordinals and dates are in bijection *)

Module CalendarFacts.
Import Calendar.

Ltac split_month m :=
  let H := fresh in
  assert (H : m = 1 \/ m = 2 \/ m = 3 \/ m = 4 \/ m = 5 \/ m = 6 \/ m = 7
              \/ m = 8 \/ m = 9 \/ m = 10 \/ m = 11 \/ m = 12) by lia;
  repeat (destruct H as [H | H]); subst m.

Lemma is_leap_spec (y : Z) :
  is_leap y = true <->
  y mod 4 = 0 /\ (y mod 100 <> 0 \/ y mod 400 = 0).
Proof.
  unfold is_leap.
  rewrite andb_true_iff, orb_true_iff, negb_true_iff.
  rewrite !Z.eqb_eq, Z.eqb_neq. tauto.
Qed.

Lemma days_before_year_succ (y : Z) :
  days_before_year (y + 1)
  = days_before_year y + 365 + (if is_leap y then 1 else 0).
Proof.
  unfold days_before_year.
  replace (y + 1 - 1) with y by lia.
  destruct (is_leap y) eqn:L.
  - apply is_leap_spec in L.
    Z.div_mod_to_equations. lia.
  - assert (N : ~ (y mod 4 = 0 /\ (y mod 100 <> 0 \/ y mod 400 = 0))).
    { rewrite <- is_leap_spec. congruence. }
    Z.div_mod_to_equations. lia.
Qed.

Lemma days_before_year_mono (a b : Z) :
  a <= b -> days_before_year a <= days_before_year b.
Proof.
  intros H. unfold days_before_year.
  Z.div_mod_to_equations. lia.
Qed.

Lemma days_before_year_next (a b : Z) :
  a < b -> days_before_year a + year_length a <= days_before_year b.
Proof.
  intros H.
  pose proof (days_before_year_succ a) as S.
  pose proof (days_before_year_mono (a + 1) b ltac:(lia)).
  unfold year_length. destruct (is_leap a); lia.
Qed.

Lemma check_date_fields_spec (y m d : Z) :
  check_date_fields y m d = true <->
  1 <= y <= 9999 /\ 1 <= m <= 12 /\ 1 <= d <= days_in_month y m.
Proof.
  unfold check_date_fields, MINYEAR, MAXYEAR.
  rewrite !andb_true_iff, !Z.leb_le. tauto.
Qed.

Lemma days_in_month_pos (y m : Z) :
  1 <= m <= 12 -> 28 <= days_in_month y m <= 31.
Proof.
  intros H. unfold days_in_month. split_month m;
    destruct (is_leap y); unfold tab; simpl; lia.
Qed.

Lemma days_before_month_succ (y m : Z) :
  1 <= m < 12 ->
  days_before_month y (m + 1) = days_before_month y m + days_in_month y m.
Proof.
  intros H. unfold days_before_month, days_in_month.
  split_month m; try lia; destruct (is_leap y); reflexivity.
Qed.

Lemma days_before_month_mono (y a b : Z) :
  1 <= a -> a < b -> b <= 12 ->
  days_before_month y a + days_in_month y a <= days_before_month y b.
Proof.
  intros Ha Hab Hb. unfold days_before_month, days_in_month.
  split_month a; try lia; split_month b; try lia;
    destruct (is_leap y); unfold tab; simpl; lia.
Qed.

Lemma days_before_month_bounds (y m : Z) :
  1 <= m <= 12 ->
  0 <= days_before_month y m
  /\ days_before_month y m + days_in_month y m <= year_length y.
Proof.
  intros H. unfold days_before_month, days_in_month, year_length.
  split_month m; destruct (is_leap y); unfold tab; simpl; lia.
Qed.

(** Strictly later dates have strictly larger ordinals. *)
Lemma ymd2ord_lt (y1 m1 d1 y2 m2 d2 : Z) :
  check_date_fields y1 m1 d1 = true ->
  check_date_fields y2 m2 d2 = true ->
  y1 < y2 \/ (y1 = y2 /\ (m1 < m2 \/ (m1 = m2 /\ d1 < d2))) ->
  ymd2ord y1 m1 d1 < ymd2ord y2 m2 d2.
Proof.
  rewrite !check_date_fields_spec.
  intros (Hy1 & Hm1 & Hd1) (Hy2 & Hm2 & Hd2) H.
  unfold ymd2ord.
  pose proof (days_before_month_bounds y1 m1 Hm1).
  pose proof (days_before_month_bounds y2 m2 Hm2).
  destruct H as [H | (-> & [H | (-> & H)])].
  - pose proof (days_before_year_next y1 y2 H). lia.
  - pose proof (days_before_month_mono y2 m1 m2). lia.
  - lia.
Qed.

Lemma ymd2ord_bounds (y m d : Z) :
  check_date_fields y m d = true -> 1 <= ymd2ord y m d <= MAXORDINAL.
Proof.
  intros H. pose proof H as H0. apply check_date_fields_spec in H0.
  destruct H0 as (Hy & Hm & Hd).
  pose proof (days_before_month_bounds y m Hm).
  split.
  - pose proof (days_before_year_mono 1 y ltac:(lia)).
    change (days_before_year 1) with 0 in *. unfold ymd2ord. lia.
  - pose proof (days_before_year_next y 10000 ltac:(lia)).
    change (days_before_year 10000) with 3652059 in *.
    unfold ymd2ord, MAXORDINAL. lia.
Qed.


Lemma month_day_table :
  forallb (fun i => month_day_ok false (Z.of_nat i)) (seq 0 365)
  && forallb (fun i => month_day_ok true (Z.of_nat i)) (seq 0 366) = true.
Proof. vm_compute. reflexivity. Qed.

Lemma month_day_spec (leap : bool) (n : Z) :
  0 <= n < (if leap then 366 else 365) ->
  month_day_ok leap n = true.
Proof.
  intros H. pose proof month_day_table as T.
  apply andb_true_iff in T. destruct T as [T0 T1].
  rewrite forallb_forall in T0, T1.
  replace n with (Z.of_nat (Z.to_nat n)) by lia.
  destruct leap; [apply T1 | apply T0]; apply in_seq; lia.
Qed.

Lemma ord2ymd_spec (n : Z) :
  1 <= n <= MAXORDINAL ->
  let '(y, m, d) := ord2ymd n in
  check_date_fields y m d = true /\ ymd2ord y m d = n.
Proof.
  intros Hn. unfold MAXORDINAL in Hn. unfold ord2ymd.
  set (n0 := n - 1).
  set (n400 := n0 / DI400Y). set (r1 := n0 mod DI400Y).
  set (n100 := r1 / DI100Y). set (r2 := r1 mod DI100Y).
  set (n4 := r2 / DI4Y). set (r3 := r2 mod DI4Y).
  set (n1 := r3 / 365). set (r := r3 mod 365).
  assert (E1 : n0 = DI400Y * n400 + r1 /\ 0 <= r1 < DI400Y)
    by (split; [apply Z.div_mod | apply Z.mod_pos_bound];
        unfold DI400Y, DI100Y, DI4Y; lia).
  assert (E2 : r1 = DI100Y * n100 + r2 /\ 0 <= r2 < DI100Y)
    by (split; [apply Z.div_mod | apply Z.mod_pos_bound];
        unfold DI400Y, DI100Y, DI4Y; lia).
  assert (E3 : r2 = DI4Y * n4 + r3 /\ 0 <= r3 < DI4Y)
    by (split; [apply Z.div_mod | apply Z.mod_pos_bound];
        unfold DI400Y, DI100Y, DI4Y; lia).
  assert (E4 : r3 = 365 * n1 + r /\ 0 <= r < 365)
    by (split; [apply Z.div_mod | apply Z.mod_pos_bound]; lia).
  unfold DI400Y, DI100Y, DI4Y in E1, E2, E3.
  assert (N0 : n0 = n - 1) by reflexivity.
  clearbody n0 n400 r1 n100 r2 n4 r3 n1 r.
  destruct ((n1 =? 4) || (n100 =? 4)) eqn:Last.
  - (* the last day of a leap year *)
    apply orb_true_iff in Last. rewrite !Z.eqb_eq in Last.
    set (y := n400 * 400 + 1 + (n100 * 100 + n4 * 4 + n1) - 1).
    assert (Hy : y = 400 * n400 + 100 * n100 + 4 * n4 + n1) by (unfold y; lia).
    clearbody y.
    assert (L : is_leap y = true).
    { apply is_leap_spec. Z.div_mod_to_equations. lia. }
    rewrite check_date_fields_spec. unfold ymd2ord, days_in_month,
      days_before_month, days_before_year. rewrite L. unfold tab. simpl.
    Z.div_mod_to_equations. lia.
  - apply orb_false_iff in Last. rewrite !Z.eqb_neq in Last.
    set (y := n400 * 400 + 1 + (n100 * 100 + n4 * 4 + n1)).
    assert (Hy : y = 400 * n400 + 100 * n100 + 4 * n4 + n1 + 1)
      by (unfold y; lia).
    clearbody y.
    set (leapyear := (n1 =? 3) && (negb (n4 =? 24) || (n100 =? 3))).
    assert (L : is_leap y = leapyear).
    { unfold leapyear. destruct (is_leap y) eqn:L.
      - apply is_leap_spec in L. symmetry.
        rewrite andb_true_iff, orb_true_iff, negb_true_iff, !Z.eqb_eq,
          Z.eqb_neq.
        Z.div_mod_to_equations. lia.
      - symmetry. apply not_true_is_false. intros C.
        rewrite andb_true_iff, orb_true_iff, negb_true_iff, !Z.eqb_eq,
          Z.eqb_neq in C.
        assert (T : is_leap y = true)
          by (apply is_leap_spec; Z.div_mod_to_equations; lia).
        congruence. }
    assert (B : days_before_year y
                = 146097 * n400 + 36524 * n100 + 1461 * n4 + 365 * n1).
    { unfold days_before_year. Z.div_mod_to_equations. lia. }
    assert (R : 0 <= r < (if leapyear then 366 else 365))
      by (destruct leapyear; lia).
    pose proof (month_day_spec leapyear r R) as M.
    unfold month_day_ok in M.
    destruct (month_day leapyear r) as [m d].
    rewrite !andb_true_iff, !Z.leb_le, Z.eqb_eq in M.
    destruct M as ((((M1 & M2) & M3) & M4) & M5).
    rewrite check_date_fields_spec.
    unfold ymd2ord, days_in_month, days_before_month.
    rewrite L, B. lia.
Qed.

End CalendarFacts.

Import CalendarFacts.

Example ymd2ord_2024_06_10 : Calendar.ymd2ord 2024 6 10 = 739047.
Proof. reflexivity. Qed.

Example ord2ymd_max : Calendar.ord2ymd Calendar.MAXORDINAL = (9999, 12, 31).
Proof. reflexivity. Qed.

Example ord2ymd_leap_day : Calendar.ord2ymd 738945 = (2024, 2, 29).
Proof. reflexivity. Qed.

(** ** Dates *)

Lemma date_eq (a b : date) :
  year a = year b -> month a = month b -> day a = day b -> a = b.
Proof.
  destruct a as [y m d p], b as [y' m' d' p']. simpl.
  intros -> -> ->. f_equal. apply UIP_dec, bool_dec.
Qed.

Lemma date_fields (a : date) :
  1 <= year a <= 9999 /\ 1 <= month a <= 12
  /\ 1 <= day a <= Calendar.days_in_month (year a) (month a).
Proof. apply check_date_fields_spec, date_ok. Qed.

Lemma new_date_spec (y m d : Z) :
  match new_date y m d with
  | OK dt => year dt = y /\ month dt = m /\ day dt = d
  | Raise e =>
      Calendar.check_date_fields y m d = false
      /\ e = ValueError (date_error y m d)
  end.
Proof.
  unfold new_date.
  generalize (eq_refl (Calendar.check_date_fields y m d)).
  generalize (Calendar.check_date_fields y m d) at 2 3.
  intros [] H; simpl; auto.
Qed.

Lemma new_date_ok (y m d : Z) :
  Calendar.check_date_fields y m d = true ->
  exists dt, new_date y m d = OK dt
             /\ year dt = y /\ month dt = m /\ day dt = d.
Proof.
  intros H. pose proof (new_date_spec y m d) as S.
  destruct (new_date y m d) as [dt | e].
  - exists dt. auto.
  - destruct S as [S _]. congruence.
Qed.

Lemma new_date_fail (y m d : Z) :
  Calendar.check_date_fields y m d = false ->
  new_date y m d = Raise (ValueError (date_error y m d)).
Proof.
  intros H. pose proof (new_date_spec y m d) as S.
  destruct (new_date y m d) as [dt | e].
  - destruct S as (<- & <- & <-). pose proof (date_ok dt). congruence.
  - destruct S as [_ ->]. reflexivity.
Qed.

Lemma toordinal_bounds (d : date) : 1 <= toordinal d <= Calendar.MAXORDINAL.
Proof. apply ymd2ord_bounds, date_ok. Qed.

Lemma date_cmp_toordinal (a b : date) :
  date_cmp a b = (toordinal a ?= toordinal b).
Proof.
  unfold date_cmp, toordinal. symmetry.
  pose proof (date_ok a) as Ha. pose proof (date_ok b) as Hb.
  destruct (Z.compare_spec (year a) (year b)) as [Ey | Ly | Ly].
  - destruct (Z.compare_spec (month a) (month b)) as [Em | Lm | Lm].
    + destruct (Z.compare_spec (day a) (day b)) as [Ed | Ld | Ld].
      * rewrite Ey, Em, Ed. apply Z.compare_refl.
      * apply Z.compare_lt_iff, ymd2ord_lt; auto.
      * apply Z.compare_gt_iff, ymd2ord_lt; auto.
    + apply Z.compare_lt_iff, ymd2ord_lt; auto.
    + apply Z.compare_gt_iff, ymd2ord_lt; auto.
  - apply Z.compare_lt_iff, ymd2ord_lt; auto.
  - apply Z.compare_gt_iff, ymd2ord_lt; auto.
Qed.

Lemma date_le_toordinal (a b : date) :
  date_le a b = true <-> toordinal a <= toordinal b.
Proof.
  unfold date_le. rewrite date_cmp_toordinal.
  destruct (Z.compare_spec (toordinal a) (toordinal b)); split;
    intros; try lia; try reflexivity; discriminate.
Qed.

Lemma toordinal_inj (a b : date) : toordinal a = toordinal b -> a = b.
Proof.
  intros H.
  assert (C : date_cmp a b = Eq)
    by (rewrite date_cmp_toordinal; apply Z.compare_eq_iff, H).
  unfold date_cmp in C.
  destruct (Z.compare_spec (year a) (year b)); try discriminate.
  destruct (Z.compare_spec (month a) (month b)); try discriminate.
  apply Z.compare_eq_iff in C. now apply date_eq.
Qed.

Lemma fromordinal_spec (n : Z) :
  1 <= n <= Calendar.MAXORDINAL ->
  exists d, fromordinal n = OK d /\ toordinal d = n.
Proof.
  intros H. pose proof (ord2ymd_spec n H) as S. unfold fromordinal.
  destruct (Calendar.ord2ymd n) as [[y m] d]. destruct S as [V E].
  destruct (new_date_ok y m d V) as (dt & -> & Hy & Hm & Hd).
  exists dt. split; [reflexivity |]. unfold toordinal. now rewrite Hy, Hm, Hd.
Qed.

Lemma fromordinal_toordinal (d : date) : fromordinal (toordinal d) = OK d.
Proof.
  destruct (fromordinal_spec (toordinal d) (toordinal_bounds d))
    as (d' & -> & E).
  f_equal. now apply toordinal_inj.
Qed.

Lemma date_add_ok (d : date) (k : Z) :
  0 < toordinal d + k <= Calendar.MAXORDINAL ->
  exists d', date_add d k = OK d' /\ toordinal d' = toordinal d + k.
Proof.
  intros H. unfold date_add.
  replace ((0 <? toordinal d + k) && (toordinal d + k <=? Calendar.MAXORDINAL))
    with true by (symmetry; apply andb_true_iff; split;
                  [apply Z.ltb_lt | apply Z.leb_le]; lia).
  apply fromordinal_spec. lia.
Qed.

Lemma date_add_overflow (d : date) (k : Z) :
  ~ (0 < toordinal d + k <= Calendar.MAXORDINAL) ->
  date_add d k = Raise (OverflowError (Msg "date value out of range")).
Proof.
  intros H. unfold date_add.
  destruct ((0 <? toordinal d + k) && (toordinal d + k <=? Calendar.MAXORDINAL))
    eqn:E; [| reflexivity].
  apply andb_true_iff in E. rewrite Z.ltb_lt, Z.leb_le in E. lia.
Qed.

Lemma date_add_inv (d d' : date) (k : Z) :
  date_add d k = OK d' -> toordinal d' = toordinal d + k.
Proof.
  intros H.
  destruct (Z_lt_dec 0 (toordinal d + k)) as [L |];
    [destruct (Z_le_dec (toordinal d + k) Calendar.MAXORDINAL) as [U |] |].
  - destruct (date_add_ok d k (conj L U)) as (d'' & E & T). congruence.
  - rewrite date_add_overflow in H by lia. discriminate.
  - rewrite date_add_overflow in H by lia. discriminate.
Qed.

Lemma replace_year_spec (d : date) (y : Z) :
  match replace_year d y with
  | OK d' => year d' = y /\ month d' = month d /\ day d' = day d
  | Raise e => exists m, e = ValueError m
  end.
Proof.
  unfold replace_year. pose proof (new_date_spec y (month d) (day d)) as S.
  destruct (new_date y (month d) (day d)); [exact S |].
  destruct S as [_ ->]. eauto.
Qed.

Lemma digit_char_ascii (n : Z) : Unicode.ascii_digit (digit_char n) = true.
Proof.
  unfold Unicode.ascii_digit, digit_char.
  pose proof (Z.mod_pos_bound n 10 ltac:(lia)).
  apply andb_true_iff. rewrite !Z.leb_le. lia.
Qed.

Lemma year_digits_four (y : Z) :
  1000 <= y ->
  year_digits y
  = [digit_char (y / 1000); digit_char (y / 100); digit_char (y / 10);
     digit_char y].
Proof.
  intros H. unfold year_digits.
  destruct (Z.ltb_spec y 10); [lia |].
  destruct (Z.ltb_spec y 100); [lia |].
  destruct (Z.ltb_spec y 1000); [lia | reflexivity].
Qed.

(** With a year of four digits, [strftime] writes the form DD.MM.YYYY. *)
Lemma strftime_renders (d : date) :
  1000 <= year d -> renders d (strftime_dmY d).
Proof.
  intros Y. unfold renders, strftime_dmY. rewrite (year_digits_four _ Y).
  cbn [app]. unfold canonical_fields.
  cbn [forallb]. rewrite !digit_char_ascii. cbn [andb Z.eqb Pos.eqb].
  pose proof (date_fields d) as (Hy & Hm & Hd).
  pose proof (days_in_month_pos (year d) (month d) Hm).
  unfold digit_char. f_equal. f_equal; [f_equal |];
    Z.div_mod_to_equations; lia.
Qed.

(** A later date is in the same year or a later one. *)
Lemma year_mono (a b : date) :
  toordinal a <= toordinal b -> year a <= year b.
Proof.
  intros H. destruct (Z_le_gt_dec (year a) (year b)) as [L | G];
    [assumption |].
  exfalso. assert (T : toordinal b < toordinal a); [| lia].
  unfold toordinal. apply ymd2ord_lt; try apply date_ok. left. lia.
Qed.

Lemma clock_year_four (w : World) : 1000 <= year (dt_date (datetime_today w)).
Proof. apply Z.leb_le, clock_year. Qed.

Lemma weekday_range (d : date) : 0 <= weekday d <= 6.
Proof. unfold weekday. pose proof (Z.mod_pos_bound (toordinal d + 6) 7). lia. Qed.
(** ** Phones *)

Lemma pystr_eqb_eq (a b : pystr) : pystr_eqb a b = true <-> a = b.
Proof.
  unfold pystr_eqb. destruct (pystr_eq_dec a b); split; intros;
    try reflexivity; try assumption; try discriminate; contradiction.
Qed.

Lemma pystr_eqb_neq (a b : pystr) : pystr_eqb a b = false <-> a <> b.
Proof.
  unfold pystr_eqb. destruct (pystr_eq_dec a b); split; intros;
    try reflexivity; try assumption; try discriminate; contradiction.
Qed.

Lemma in_ranges_digit_of_ascii (c : Z) :
  Unicode.ascii_digit c = true -> Unicode.char_isdigit c = true.
Proof.
  unfold Unicode.ascii_digit, Unicode.char_isdigit, Unicode.in_ranges.
  intros H. simpl. unfold Unicode.in_range at 1. simpl. now rewrite H.
Qed.

Lemma isdigit_forallb (s : pystr) :
  Unicode.isdigit s = true <-> s <> [] /\ forallb Unicode.char_isdigit s = true.
Proof.
  destruct s; simpl; split; intros H; try discriminate.
  - now destruct H.
  - split; [discriminate | assumption].
  - apply H.
Qed.

Lemma Phone_init_cases (s : pystr) :
  Phone_init s = OK {| phone_value := s |}
  /\ Unicode.len s = 10 /\ forallb Unicode.char_isdigit s = true
  \/ Phone_init s = Raise PHONE_ERROR
     /\ ~ (Unicode.len s = 10 /\ forallb Unicode.char_isdigit s = true).
Proof.
  unfold Phone_init.
  destruct (Unicode.isdigit s) eqn:D; simpl.
  - destruct (Z.eqb_spec (Unicode.len s) 10) as [L | L]; simpl.
    + left. apply isdigit_forallb in D. tauto.
    + right. tauto.
  - right. split; [reflexivity |]. intros [L F].
    assert (Unicode.isdigit s = true).
    { apply isdigit_forallb. split; [| assumption].
      intros ->. discriminate. }
    congruence.
Qed.

(** C3, as stated, fails: a string of ten Arabic-Indic digits has no ASCII
    digit in it, and [Phone] accepts it. *)
Lemma phone_ascii_only_counterexample :
  ~ (forall s : pystr,
       (exists p, Phone_init s = OK p)
       <-> Unicode.len s = 10 /\ forallb Unicode.ascii_digit s = true).
Proof.
  intros H. destruct (H arabic_indic_digits) as [H1 _].
  assert (E : exists p, Phone_init arabic_indic_digits = OK p)
    by (eexists; vm_compute; reflexivity).
  apply H1 in E. destruct E as [_ E]. vm_compute in E. discriminate.
Qed.

(** C3, amended: [Phone(s)] succeeds exactly when [s] has ten characters,
    all of them digits for [str.isdigit]; the ASCII digits are among these.
    On success the value is [s] itself, and every failure is the
    [ValueError] "Phone number must be exactly 10 digits.". *)
Theorem phone_exactly_ten_digits (s : pystr) :
  ((exists p, Phone_init s = OK p)
   <-> Unicode.len s = 10 /\ forallb Unicode.char_isdigit s = true)
  /\ (forall p, Phone_init s = OK p -> phone_value p = s)
  /\ (forall e, Phone_init s = Raise e -> e = PHONE_ERROR)
  /\ (Unicode.len s = 10 /\ forallb Unicode.ascii_digit s = true ->
      Phone_init s = OK {| phone_value := s |}).
Proof.
  assert (A : forallb Unicode.ascii_digit s = true ->
              forallb Unicode.char_isdigit s = true).
  { rewrite !forallb_forall. intros F c Hc.
    apply in_ranges_digit_of_ascii, F, Hc. }
  destruct (Phone_init_cases s) as [(E & L & F) | (E & N)]; rewrite E.
  - split; [split; eauto |].
    split; [intros p [= <-]; reflexivity |].
    split; [discriminate | reflexivity].
  - split; [split; [intros [p [=]] | tauto] |].
    split; [discriminate |].
    split; [intros e [= <-]; reflexivity |].
    intros [L F]. exfalso. apply N. auto.
Qed.

(** ** Records *)

Lemma set_phones_same (r : ContactRecord) : set_phones (phones r) r = r.
Proof. destruct r. reflexivity. Qed.

Lemma edit_loop_length (old new : pystr) (ps : list Phone) :
  List.length (edit_loop old new ps) = List.length ps.
Proof. induction ps; simpl; congruence. Qed.

Lemma edit_loop_nth (old new : pystr) (ps : list Phone) (i : nat) :
  nth_error (edit_loop old new ps) i
  = option_map
      (fun p => if pystr_eqb (phone_value p) old
                then {| phone_value := new |} else p)
      (nth_error ps i).
Proof.
  revert i. induction ps as [| p ps IH]; intros [| i]; simpl; auto.
Qed.

Lemma edit_loop_absent (old new : pystr) (ps : list Phone) :
  (forall p, In p ps -> phone_value p <> old) ->
  edit_loop old new ps = ps.
Proof.
  induction ps as [| p ps IH]; simpl; intros H; [reflexivity |].
  rewrite IH by auto.
  destruct (pystr_eqb (phone_value p) old) eqn:E; [| reflexivity].
  apply pystr_eqb_eq in E. exfalso. apply (H p); auto.
Qed.

(** C6: [edit_phone(old, new)] always returns; the phone at each index
    becomes [new] when its value is [old] and stays as it is otherwise,
    whatever [new] is (it is not validated); the name, the birthday and
    the number of phones do not change; and the record is unchanged when
    no phone has the value [old]. *)
Theorem edit_phone_replaces_matching (old new : pystr) (r : ContactRecord) :
  exists r',
    edit_phone old new r = Returns r' tt
    /\ name r' = name r /\ birthday r' = birthday r
    /\ List.length (phones r') = List.length (phones r)
    /\ (forall i p, nth_error (phones r) i = Some p ->
          (phone_value p = old ->
             nth_error (phones r') i = Some {| phone_value := new |})
          /\ (phone_value p <> old -> nth_error (phones r') i = Some p))
    /\ ((forall p, In p (phones r) -> phone_value p <> old) -> r' = r).
Proof.
  eexists. split; [reflexivity |]. simpl.
  split; [reflexivity |]. split; [reflexivity |].
  split; [apply edit_loop_length |]. split.
  - intros i p H. rewrite edit_loop_nth, H. simpl. split; intros E.
    + apply pystr_eqb_eq in E. now rewrite E.
    + apply pystr_eqb_neq in E. now rewrite E.
  - intros H. rewrite edit_loop_absent by assumption. apply set_phones_same.
Qed.

Lemma eval_raises {S A} (r : Result A) (self self' : S) (e : exn) :
  eval r self = Raises self' e -> self' = self /\ r = Raise e.
Proof. destruct r; simpl; intros [=]; subst; auto. Qed.

Lemma mbind_modify_raises {S A} (m : method S A) (f : A -> S -> S)
    (self self' : S) (e : exn) :
  (x <~ m ;; modify (f x)) self = Raises self' e ->
  m self = Raises self' e.
Proof.
  unfold mbind. destruct (m self); simpl; intros [=]. subst. reflexivity.
Qed.

(** C8: when [add_phone(raw)] or [add_birthday(raw)] raises, the record
    is the one the call started from: same name, same phones, same
    birthday. *)
Theorem failed_add_leaves_record (raw : pystr) (r r' : ContactRecord)
    (e : exn) :
  add_phone raw r = Raises r' e \/ add_birthday raw r = Raises r' e ->
  r' = r /\ phones r' = phones r /\ birthday r' = birthday r.
Proof.
  intros H.
  assert (E : r' = r).
  { destruct H as [H | H].
    - unfold add_phone in H.
      apply (mbind_modify_raises _ (fun p self =>
               set_phones (phones self ++ [p]) self)) in H.
      now apply eval_raises in H.
    - unfold add_birthday in H.
      apply (mbind_modify_raises _ (fun b => set_birthday (Some b))) in H.
      now apply eval_raises in H. }
  subst. auto.
Qed.

Lemma failed_add_leaves_record_witness :
  add_phone (str "12345") kate = Raises kate PHONE_ERROR
  /\ add_birthday (str "31.02.2000") kate = Raises kate BIRTHDAY_ERROR
  /\ (kate = kate /\ phones kate = phones kate
      /\ birthday kate = birthday kate).
Proof.
  split; [reflexivity |]. split; [reflexivity |].
  apply (failed_add_leaves_record (str "12345") kate kate PHONE_ERROR).
  left. reflexivity.
Defined.

(** ** The directory *)

Lemma dict_set_keys (k : pystr) (v : ContactRecord) (d : dict) :
  map fst (dict_set k v d)
  = if dict_contains k d then map fst d else map fst d ++ [k].
Proof.
  unfold dict_contains.
  induction d as [| [k' v'] d IH]; simpl; [reflexivity |].
  destruct (pystr_eqb k' k) eqn:E; simpl; [reflexivity |].
  rewrite IH. destruct (dict_get k d); reflexivity.
Qed.

Lemma dict_get_In (k : pystr) (d : dict) (r : ContactRecord) :
  dict_get k d = Some r -> In (k, r) d.
Proof.
  induction d as [| [k' v'] d IH]; simpl; [discriminate |].
  destruct (pystr_eqb k' k) eqn:E.
  - apply pystr_eqb_eq in E. intros [= ->]. left. now subst.
  - auto.
Qed.

Lemma dict_get_None (k : pystr) (d : dict) :
  dict_get k d = None -> ~ In k (map fst d).
Proof.
  induction d as [| [k' v'] d IH]; simpl; [tauto |].
  destruct (pystr_eqb k' k) eqn:E; [discriminate |].
  apply pystr_eqb_neq in E. intros H [C | C]; [contradiction |].
  now apply IH.
Qed.

Lemma dict_set_In (k : pystr) (v : ContactRecord) (d : dict) k0 r0 :
  In (k0, r0) (dict_set k v d) -> In (k0, r0) d \/ (k0 = k /\ r0 = v).
Proof.
  induction d as [| [k' v'] d IH]; simpl.
  - intros [[= <- <-] | []]. auto.
  - destruct (pystr_eqb k' k) eqn:E; simpl.
    + apply pystr_eqb_eq in E. intros [[= <- <-] | H]; auto.
    + intros [H | H]; auto. destruct (IH H); auto.
Qed.

Lemma dict_del_In (k : pystr) (d : dict) x :
  In x (dict_del k d) -> In x d.
Proof.
  induction d as [| [k' v'] d IH]; simpl; [tauto |].
  destruct (pystr_eqb k' k); simpl; intuition.
Qed.

Lemma dict_del_keys_In (k : pystr) (d : dict) x :
  In x (map fst (dict_del k d)) -> In x (map fst d).
Proof.
  induction d as [| [k' v'] d IH]; simpl; [tauto |].
  destruct (pystr_eqb k' k); simpl; intuition.
Qed.

Lemma dict_del_unique (k : pystr) (d : dict) :
  keys_unique d -> keys_unique (dict_del k d).
Proof.
  unfold keys_unique.
  induction d as [| [k' v'] d IH]; simpl; intros H; [constructor |].
  inversion H as [| ? ? N U]; subst.
  destruct (pystr_eqb k' k); simpl; [assumption |].
  constructor; [| auto]. intros C. apply N. eapply dict_del_keys_In, C.
Qed.

Lemma dict_set_unique (k : pystr) (v : ContactRecord) (d : dict) :
  keys_unique d -> keys_unique (dict_set k v d).
Proof.
  unfold keys_unique. intros H. rewrite dict_set_keys.
  unfold dict_contains. destruct (dict_get k d) eqn:G; [assumption |].
  apply dict_get_None in G.
  apply NoDup_rev in H. rewrite <- (rev_involutive (map fst d ++ [k])).
  apply NoDup_rev. rewrite rev_app_distr. simpl.
  constructor; [| assumption]. now rewrite <- in_rev.
Qed.

Lemma run_op_invariant (o : op) (book : AddressBook) :
  keys_mirror_names (data book) /\ keys_unique (data book) ->
  keys_mirror_names (data (run_op o book))
  /\ keys_unique (data (run_op o book)).
Proof.
  intros [M U]. destruct o as [record | n | n]; simpl.
  - split.
    + intros k r H. apply dict_set_In in H.
      destruct H as [H | [-> ->]]; [now apply M | reflexivity].
    + now apply dict_set_unique.
  - auto.
  - destruct (dict_contains n (data book)); simpl; [| auto]. split.
    + intros k r H. apply M. eapply dict_del_In, H.
    + now apply dict_del_unique.
Qed.

(** C9: in every directory reached from the empty one by [add_record],
    [find] and [delete], each key maps to a record of that name (for the
    entries of the mapping and for what [find] returns), and no key
    occurs twice. *)
Theorem reachable_keys_mirror_names (book : AddressBook) :
  reachable book ->
  keys_mirror_names (data book)
  /\ (forall k r, find k book = Some r -> name_value (name r) = k)
  /\ keys_unique (data book).
Proof.
  intros R.
  assert (I : keys_mirror_names (data book) /\ keys_unique (data book)).
  { induction R as [| book o R IH].
    - split; [intros k r [] | constructor].
    - now apply run_op_invariant. }
  destruct I as [M U]. split; [assumption |]. split; [| assumption].
  intros k r H. apply M. now apply dict_get_In.
Qed.

Lemma reachable_keys_mirror_names_witness :
  data sample_book = [(str "bob", bob)]
  /\ keys_mirror_names (data sample_book)
  /\ (forall k r, find k sample_book = Some r -> name_value (name r) = k)
  /\ keys_unique (data sample_book).
Proof.
  split; [reflexivity |].
  apply (reachable_keys_mirror_names sample_book).
  unfold sample_book, sample_ops. cbn [fold_left].
  repeat apply reach_step. apply reach_empty.
Defined.

(** ** The matcher *)

Lemma one_char_In (p : Z -> bool) (s : pystr) (g : Re.groups) m rest g' :
  In (m, rest, g') (Re.one_char p s g) <->
  exists c, p c = true /\ m = [c] /\ s = c :: rest /\ g' = g.
Proof.
  unfold Re.one_char. destruct s as [| c s'].
  - split; [intros [] | intros (c & _ & _ & [=] & _)].
  - destruct (p c) eqn:P; simpl.
    + split.
      * intros [[= <- <- <-] | []]. exists c. auto.
      * intros (c' & _ & -> & [= <- <-] & ->). auto.
    + split; [intros [] |].
      intros (c' & P' & _ & [= <- _] & _). congruence.
Qed.

(** The matcher lists exactly the matches of a prefix of the text. *)
Lemma rmatch_matches (r : Re.regex) :
  forall s g m rest g',
    In (m, rest, g') (Re.rmatch r s g) <->
    s = m ++ rest /\ matches r g m g'.
Proof.
  induction r as [c | lo hi | | a IHa b IHb | a IHa b IHb | n r IH];
    intros s g m rest g'; simpl.
  - rewrite one_char_In. split.
    + intros (x & E & -> & -> & ->). apply Z.eqb_eq in E. subst x.
      split; [reflexivity | constructor].
    + intros [-> M]. inversion M; subst. exists c.
      rewrite Z.eqb_refl. auto.
  - rewrite one_char_In. split.
    + intros (x & E & -> & -> & ->).
      apply andb_true_iff in E. rewrite !Z.leb_le in E.
      split; [reflexivity | now constructor].
    + intros [-> M]. inversion M; subst. exists x. split; [| auto].
      apply andb_true_iff. rewrite !Z.leb_le. assumption.
  - rewrite one_char_In. split.
    + intros (x & E & -> & -> & ->).
      split; [reflexivity | now constructor].
    + intros [-> M]. inversion M; subst. exists x. auto.
  - rewrite in_flat_map. split.
    + intros ([[m1 s1] g1] & H1 & H2). apply in_map_iff in H2.
      destruct H2 as ([[m2 s2] g2] & [= <- <- <-] & H2).
      apply IHa in H1. apply IHb in H2.
      destruct H1 as [-> M1], H2 as [-> M2].
      split; [now rewrite app_assoc | econstructor; eauto].
    + intros [-> M]. inversion M; subst.
      exists (m1, m2 ++ rest, g1). split.
      * apply IHa. split; [now rewrite app_assoc | assumption].
      * apply in_map_iff. exists (m2, rest, g'). split; [reflexivity |].
        apply IHb. auto.
  - rewrite in_app_iff, IHa, IHb. split.
    + intros [[-> M] | [-> M]]; split; auto;
        [now apply M_AltL | now apply M_AltR].
    + intros [-> M]. inversion M; subst; auto.
  - rewrite in_map_iff. split.
    + intros ([[m0 s0] g0] & [= <- <- <-] & H). apply IH in H.
      destruct H as [-> M]. split; [reflexivity | now constructor].
    + intros [-> M]. inversion M; subst.
      exists (m, rest, g'0). split; [reflexivity |]. apply IH. auto.
Qed.

(** ** Decimal digits *)

Lemma existsb_find {A} (f : A -> bool) (l : list A) :
  existsb f l = true <-> exists x, List.find f l = Some x.
Proof.
  induction l as [| a l IH]; simpl.
  - split; [discriminate | intros [x [=]]].
  - destruct (f a); simpl; [split; eauto | exact IH].
Qed.

Lemma char_isdecimal_value (c : Z) :
  Unicode.char_isdecimal c = true <->
  exists v, Unicode.decimal_value c = Some v.
Proof.
  unfold Unicode.char_isdecimal, Unicode.in_ranges, Unicode.decimal_value.
  rewrite existsb_find. split.
  - intros [[lo hi] ->]. eauto.
  - intros [v H].
    destruct (List.find (Unicode.in_range c) Unicode.DECIMAL_RANGES) as [x |];
      [eauto | discriminate].
Qed.

Lemma decimal_value_ascii (c : Z) :
  48 <= c <= 57 -> Unicode.decimal_value c = Some (c - 48).
Proof.
  intros H. unfold Unicode.decimal_value, Unicode.DECIMAL_RANGES.
  cbn [List.find]. unfold Unicode.in_range at 1. cbn [fst snd].
  replace ((48 <=? c) && (c <=? 57)) with true
    by (symmetry; apply andb_true_iff; rewrite !Z.leb_le; lia).
  now rewrite Z.mod_small by lia.
Qed.

Lemma decimal_value_range (c v : Z) :
  Unicode.decimal_value c = Some v -> 0 <= v <= 9.
Proof.
  unfold Unicode.decimal_value.
  destruct (List.find (Unicode.in_range c) Unicode.DECIMAL_RANGES)
    as [[lo hi] |]; [| discriminate].
  intros [= <-]. pose proof (Z.mod_pos_bound (c - lo) 10). lia.
Qed.

Lemma decimal_not_dot (c v : Z) :
  Unicode.decimal_value c = Some v -> c <> 46 /\ c <> 32.
Proof. intros H. split; intros ->; vm_compute in H; discriminate. Qed.

(** ** The three directives *)

Ltac inv_matches :=
  repeat match goal with
         | H : matches (Re.Lit _) _ _ _ |- _ => inversion H; clear H; subst
         | H : matches (Re.Range _ _) _ _ _ |- _ =>
             inversion H; clear H; subst
         | H : matches Re.Digit _ _ _ |- _ => inversion H; clear H; subst
         | H : matches (Re.Cat _ _) _ _ _ |- _ => inversion H; clear H; subst
         | H : matches (Re.Alt _ _) _ _ _ |- _ => inversion H; clear H; subst
         | H : matches (Re.Group _ _) _ _ _ |- _ =>
             inversion H; clear H; subst
         end.

Ltac two_chars a c :=
  change [a; c] with ([a] ++ [c]); eapply M_Cat; constructor; lia.

Lemma matches_directive_d (g g' : Re.groups) (t : pystr) :
  matches Re.directive_d g t g' <->
  (exists v, day_text t v) /\ g' = ("d"%string, t) :: g.
Proof.
  unfold Re.directive_d. split.
  - intros M. inv_matches; simpl; (split; [| reflexivity]);
      repeat match goal with
             | H : Unicode.char_isdecimal _ = true |- _ =>
                 apply char_isdecimal_value in H; destruct H
             end;
      eexists;
      first [ now apply day_thirty | solve [eapply day_tens; eassumption]
            | now apply day_zero
            | now apply day_one | now apply day_blank ].
  - intros [[v D] ->]. constructor. destruct D.
    + do 3 apply M_AltR. apply M_AltL. now constructor.
    + do 4 apply M_AltR. two_chars 32 c.
    + do 2 apply M_AltR. apply M_AltL. two_chars 48 c.
    + apply M_AltR, M_AltL. change [a; c] with ([a] ++ [c]).
      eapply M_Cat; constructor; [lia |]. apply char_isdecimal_value. eauto.
    + apply M_AltL. two_chars 51 c.
Qed.

Lemma matches_directive_m (g g' : Re.groups) (t : pystr) :
  matches Re.directive_m g t g' <->
  (exists v, month_text t v) /\ g' = ("m"%string, t) :: g.
Proof.
  unfold Re.directive_m. split.
  - intros M. inv_matches; simpl; (split; [| reflexivity]); eexists;
      first [ now apply month_ten | now apply month_zero
            | now apply month_one ].
  - intros [[v D] ->]. constructor. destruct D.
    + do 2 apply M_AltR. now constructor.
    + apply M_AltR, M_AltL. two_chars 48 c.
    + apply M_AltL. two_chars 49 c.
Qed.

Lemma digits_value_some (t : pystr) :
  Forall (fun c => Unicode.char_isdecimal c = true) t ->
  forall acc, exists v, Unicode.digits_value acc t = Some v.
Proof.
  induction 1 as [| c t H _ IH]; intros acc; simpl; [eauto |].
  apply char_isdecimal_value in H. destruct H as [v ->]. apply IH.
Qed.

Lemma digits_value_decimal (t : pystr) :
  forall acc v, Unicode.digits_value acc t = Some v ->
  Forall (fun c => Unicode.char_isdecimal c = true) t.
Proof.
  induction t as [| c t IH]; intros acc v; simpl; [constructor |].
  destruct (Unicode.decimal_value c) as [x |] eqn:E; [| discriminate].
  intros H. constructor; [apply char_isdecimal_value; eauto | eauto].
Qed.

Lemma matches_directive_Y (g g' : Re.groups) (t : pystr) :
  matches Re.directive_Y g t g' <->
  (exists v, year_text t v) /\ g' = ("Y"%string, t) :: g.
Proof.
  unfold Re.directive_Y, year_text. split.
  - intros M. inv_matches; cbn [app]; (split; [| reflexivity]).
    match goal with
    | |- exists v, _ /\ Unicode.digits_value 0 ?t = _ =>
        assert (F : Forall (fun c => Unicode.char_isdecimal c = true) t)
          by (repeat constructor; assumption);
        destruct (digits_value_some t F 0) as [v E]
    end.
    exists v. split; [reflexivity | exact E].
  - intros [[v [L D]] ->]. constructor.
    apply digits_value_decimal in D.
    destruct t as [| a [| b [| c [| d [| ? ?]]]]]; try discriminate.
    inversion D as [| ? ? Ha D1]; subst.
    inversion D1 as [| ? ? Hb D2]; subst.
    inversion D2 as [| ? ? Hc D3]; subst.
    inversion D3 as [| ? ? Hd _]; subst.
    change [a; b; c; d] with ([a] ++ [b] ++ [c] ++ [d]).
    repeat (eapply M_Cat; [now constructor |]). now constructor.
Qed.

(** The whole pattern matches exactly the texts day.month.year. *)
Lemma matches_format (t : pystr) (g' : Re.groups) :
  matches Re.format_regex [] t g' <->
  exists dt mt yt,
    t = dt ++ [46] ++ mt ++ [46] ++ yt
    /\ (exists d, day_text dt d) /\ (exists m, month_text mt m)
    /\ (exists y, year_text yt y)
    /\ g' = [("Y"%string, yt); ("m"%string, mt); ("d"%string, dt)].
Proof.
  unfold Re.format_regex. split.
  - intros M.
    inversion M as [| | | ? ? ? g1 ? dt r1 Md M1 | | |]; subst; clear M.
    inversion M1 as [| | | ? ? ? g2 ? p1 r2 Mp1 M2 | | |]; subst; clear M1.
    inversion M2 as [| | | ? ? ? g3 ? mt r3 Mm M3 | | |]; subst; clear M2.
    inversion M3 as [| | | ? ? ? g4 ? p2 yt Mp2 My | | |]; subst; clear M3.
    inversion Mp1; subst. inversion Mp2; subst.
    apply matches_directive_d in Md. destruct Md as [Dd ->].
    apply matches_directive_m in Mm. destruct Mm as [Dm ->].
    apply matches_directive_Y in My. destruct My as [Dy ->].
    exists dt, mt, yt. auto.
  - intros (dt & mt & yt & -> & Dd & Dm & Dy & ->).
    eapply M_Cat; [apply matches_directive_d; eauto |].
    eapply M_Cat; [constructor |].
    eapply M_Cat; [apply matches_directive_m; eauto |].
    eapply M_Cat; [constructor |].
    apply matches_directive_Y; eauto.
Qed.

(** ** Reading the numbers *)

Lemma lstrip_space_keep (c : Z) (s : pystr) :
  c <> 32 -> Unicode.lstrip_space (c :: s) = c :: s.
Proof.
  intros H. simpl. apply Z.eqb_neq in H. now rewrite H.
Qed.

Lemma int_digits (c : Z) (s : pystr) (v x : Z) :
  Unicode.decimal_value c = Some x ->
  Unicode.digits_value 0 (c :: s) = Some v ->
  Unicode.int (c :: s) = OK v.
Proof.
  intros C D. unfold Unicode.int.
  rewrite lstrip_space_keep by (apply (decimal_not_dot c x C)).
  now rewrite D.
Qed.

Lemma int_day_text (t : pystr) (v : Z) :
  day_text t v -> Unicode.int t = OK v.
Proof.
  intros D. destruct D.
  - apply (int_digits _ _ _ (c - 48)); [apply decimal_value_ascii; lia |].
    simpl. rewrite decimal_value_ascii by lia. f_equal; lia.
  - unfold Unicode.int. simpl Unicode.lstrip_space.
    replace (c =? 32) with false by (symmetry; apply Z.eqb_neq; lia).
    simpl.
    rewrite decimal_value_ascii by lia. f_equal; lia.
  - apply (int_digits _ _ _ 0); [reflexivity |].
    simpl. rewrite decimal_value_ascii by lia. f_equal; lia.
  - apply (int_digits _ _ _ (a - 48)); [apply decimal_value_ascii; lia |].
    simpl. rewrite decimal_value_ascii by lia. rewrite H0. f_equal; lia.
  - apply (int_digits _ _ _ 3); [reflexivity |].
    simpl. rewrite decimal_value_ascii by lia. f_equal; lia.
Qed.

Lemma int_month_text (t : pystr) (v : Z) :
  month_text t v -> Unicode.int t = OK v.
Proof.
  intros D. destruct D.
  - apply (int_digits _ _ _ (c - 48)); [apply decimal_value_ascii; lia |].
    simpl. rewrite decimal_value_ascii by lia. f_equal; lia.
  - apply (int_digits _ _ _ 0); [reflexivity |].
    simpl. rewrite decimal_value_ascii by lia. f_equal; lia.
  - apply (int_digits _ _ _ 1); [reflexivity |].
    simpl. rewrite decimal_value_ascii by lia. f_equal; lia.
Qed.

Lemma int_year_text (t : pystr) (v : Z) :
  year_text t v -> Unicode.int t = OK v.
Proof.
  intros [L D]. destruct t as [| c t]; [discriminate |].
  pose proof D as D'. simpl in D'.
  destruct (Unicode.decimal_value c) as [x |] eqn:C; [| discriminate].
  now apply (int_digits _ _ _ x).
Qed.

(** ** The text is read in one way only *)

Ltac clash :=
  match goal with
  | H : Unicode.decimal_value 46 = Some _ |- _ =>
      vm_compute in H; discriminate
  | _ => lia
  end.

Lemma day_text_prefix (t1 t2 r1 r2 : pystr) (v1 v2 : Z) :
  day_text t1 v1 -> day_text t2 v2 ->
  t1 ++ 46 :: r1 = t2 ++ 46 :: r2 -> t1 = t2 /\ r1 = r2.
Proof.
  intros D1 D2 E.
  destruct D1; destruct D2; simpl in E; injection E; intros; subst;
    solve [auto | exfalso; clash].
Qed.

Lemma month_text_prefix (t1 t2 r1 r2 : pystr) (v1 v2 : Z) :
  month_text t1 v1 -> month_text t2 v2 ->
  t1 ++ 46 :: r1 = t2 ++ 46 :: r2 -> t1 = t2 /\ r1 = r2.
Proof.
  intros D1 D2 E.
  destruct D1; destruct D2; simpl in E; injection E; intros; subst;
    solve [auto | exfalso; clash].
Qed.

Lemma hd_error_In {A} (l : list A) (x : A) : hd_error l = Some x -> In x l.
Proof. destruct l; simpl; [discriminate | intros [= ->]; auto]. Qed.

(** What [match] finds on a text day.month.year: the whole text, with
    the three groups. *)
Lemma re_match_day_month_year (dt mt yt : pystr) (d m y : Z) :
  day_text dt d -> month_text mt m -> year_text yt y ->
  Re.re_match Re.format_regex (dt ++ [46] ++ mt ++ [46] ++ yt)
  = Some (dt ++ [46] ++ mt ++ [46] ++ yt, [],
          [("Y"%string, yt); ("m"%string, mt); ("d"%string, dt)]).
Proof.
  intros Dd Dm Dy. set (s := dt ++ [46] ++ mt ++ [46] ++ yt).
  assert (I : In (s, [], [("Y"%string, yt); ("m"%string, mt);
                          ("d"%string, dt)])
                (Re.rmatch Re.format_regex s [])).
  { apply rmatch_matches. split; [now rewrite app_nil_r |].
    apply matches_format. exists dt, mt, yt. eauto 10. }
  unfold Re.re_match.
  destruct (Re.rmatch Re.format_regex s []) as [| [[m' rest'] g''] l] eqn:R;
    [destruct I |].
  assert (I' : In (m', rest', g'') (Re.rmatch Re.format_regex s []))
    by (rewrite R; left; reflexivity).
  apply rmatch_matches in I'. destruct I' as [E M].
  apply matches_format in M.
  destruct M as (dt' & mt' & yt' & -> & [d' Dd'] & [m'' Dm'] & [y' Dy'] & ->).
  unfold s in E. simpl in E. rewrite <- !app_assoc in E. simpl in E.
  destruct (day_text_prefix _ _ _ _ _ _ Dd Dd' E) as [<- E1].
  rewrite <- !app_assoc in E1. simpl in E1.
  destruct (month_text_prefix _ _ _ _ _ _ Dm Dm' E1) as [<- E2].
  destruct Dy as [Ly _], Dy' as [Ly' _].
  assert (rest' = []).
  { apply (f_equal (@List.length Z)) in E2. rewrite length_app in E2.
    destruct rest'; [reflexivity | simpl in E2; lia]. }
  subst rest'. rewrite app_nil_r in E2. subst yt'. reflexivity.
Qed.

(** [strptime] returns exactly on the texts day.month.year whose numbers
    are a date of the calendar, and returns that date at midnight. *)
Lemma strptime_spec (s : pystr) (t : datetime) :
  strptime s = OK t <->
  exists d m y H,
    day_month_year s d m y /\ t = DateTime (Date y m d H) 0 0 0 0.
Proof.
  split.
  - unfold strptime.
    destruct (Re.re_match Re.format_regex s) as [[[m0 rest] found] |] eqn:R;
      [| discriminate].
    destruct rest; [| discriminate].
    apply hd_error_In, rmatch_matches in R. destruct R as [E M].
    rewrite app_nil_r in E. subst m0. apply matches_format in M.
    destruct M as (dt & mt & yt & -> & [d Dd] & [m Dm] & [y Dy] & ->).
    cbn [Re.group String.eqb Ascii.eqb Bool.eqb].
    rewrite (int_day_text _ _ Dd), (int_month_text _ _ Dm),
      (int_year_text _ _ Dy). cbn [bind].
    pose proof (new_date_spec y m d) as N.
    destruct (new_date y m d) as [[y0 m0 d0 p] |]; [| discriminate].
    simpl in N. destruct N as (-> & -> & ->). cbn [bind]. intros [= <-].
    exists d, m, y, p. split; [| reflexivity].
    exists dt, mt, yt. auto.
  - intros (d & m & y & H & (dt & mt & yt & -> & Dd & Dm & Dy) & ->).
    unfold strptime. rewrite (re_match_day_month_year _ _ _ _ _ _ Dd Dm Dy).
    cbn [Re.group String.eqb Ascii.eqb Bool.eqb].
    rewrite (int_day_text _ _ Dd), (int_month_text _ _ Dm),
      (int_year_text _ _ Dy). cbn [bind].
    destruct (new_date_ok y m d H) as ([y0 m0 d0 p] & -> & Y & M & D).
    simpl in Y, M, D. subst. cbn [bind]. do 2 f_equal.
    apply date_eq; reflexivity.
Qed.

Lemma int_raises (t : pystr) (e : exn) :
  Unicode.int t = Raise e -> exists m, e = ValueError m.
Proof.
  unfold Unicode.int. destruct (Unicode.lstrip_space t); [intros [= <-]; eauto |].
  destruct (Unicode.digits_value 0 (z :: p)); [discriminate |].
  intros [= <-]. eauto.
Qed.

(** [strptime] raises nothing but [ValueError]. *)
Lemma strptime_raises (s : pystr) (e : exn) :
  strptime s = Raise e -> exists m, e = ValueError m.
Proof.
  unfold strptime.
  destruct (Re.re_match Re.format_regex s) as [[[m0 rest] found] |];
    [| intros [= <-]; eauto].
  destruct rest; [| intros [= <-]; eauto].
  destruct (Unicode.int (Re.group found "d")) eqn:Ed; cbn [bind];
    [| intros [= <-]; eapply int_raises; eauto].
  destruct (Unicode.int (Re.group found "m")) eqn:Em; cbn [bind];
    [| intros [= <-]; eapply int_raises; eauto].
  destruct (Unicode.int (Re.group found "Y")) eqn:Ey; cbn [bind];
    [| intros [= <-]; eapply int_raises; eauto].
  pose proof (new_date_spec a1 a0 a) as N.
  destruct (new_date a1 a0 a); cbn [bind]; [discriminate |].
  destruct N as [_ ->]. intros [= <-]. eauto.
Qed.

(** ** Birthdays *)

Lemma canonical_fields_inv (s : pystr) (y m d : Z) :
  canonical_fields s = Some (y, m, d) ->
  exists d1 d2 m1 m2 y1 y2 y3 y4,
    s = [d1; d2; 46; m1; m2; 46; y1; y2; y3; y4]
    /\ Forall (fun c => 48 <= c <= 57) [d1; d2; m1; m2; y1; y2; y3; y4]
    /\ y = 1000 * (y1 - 48) + 100 * (y2 - 48) + 10 * (y3 - 48) + (y4 - 48)
    /\ m = 10 * (m1 - 48) + (m2 - 48)
    /\ d = 10 * (d1 - 48) + (d2 - 48).
Proof.
  unfold canonical_fields.
  destruct s as [| d1 [| d2 [| p1 [| m1 [| m2 [| p2 [| y1 [| y2 [| y3
    [| y4 [| ? ?]]]]]]]]]]]; try discriminate.
  destruct (forallb Unicode.ascii_digit [d1; d2; m1; m2; y1; y2; y3; y4]
            && (p1 =? 46) && (p2 =? 46)) eqn:C; [| discriminate].
  intros [= <- <- <-].
  rewrite !andb_true_iff, !Z.eqb_eq in C. destruct C as [[F ->] ->].
  exists d1, d2, m1, m2, y1, y2, y3, y4. split; [reflexivity |].
  split; [| auto].
  rewrite forallb_forall in F. apply Forall_forall. intros c Hc.
  specialize (F c Hc). unfold Unicode.ascii_digit in F.
  apply andb_true_iff in F. rewrite !Z.leb_le in F. exact F.
Qed.

(** A date has one text in the form DD.MM.YYYY. *)
Lemma renders_unique (s1 s2 : pystr) (f : Z * Z * Z) :
  canonical_fields s1 = Some f -> canonical_fields s2 = Some f -> s1 = s2.
Proof.
  destruct f as [[y m] d]. intros H1 H2.
  apply canonical_fields_inv in H1, H2.
  destruct H1 as (d1 & d2 & m1 & m2 & y1 & y2 & y3 & y4 & -> & F & Y & M & D).
  destruct H2 as (e1 & e2 & n1 & n2 & z1 & z2 & z3 & z4 & -> & G & Y' & M' & D').
  repeat match goal with
         | H : Forall _ (_ :: _) |- _ => inversion H; clear H; subst
         | H : Forall _ [] |- _ => clear H
         end.
  repeat f_equal; lia.
Qed.

(** A text in the form DD.MM.YYYY is a text day.month.year. *)
Lemma canonical_day_month_year (s : pystr) (y m d : Z) :
  canonical_fields s = Some (y, m, d) ->
  Calendar.check_date_fields y m d = true ->
  day_month_year s d m y.
Proof.
  intros C V. apply check_date_fields_spec in V.
  destruct V as (Vy & Vm & Vd).
  pose proof (days_in_month_pos y m Vm) as B.
  apply canonical_fields_inv in C.
  destruct C as (d1 & d2 & m1 & m2 & y1 & y2 & y3 & y4 & -> & F & Y & M & D).
  repeat match goal with
         | H : Forall _ (_ :: _) |- _ => inversion H; clear H; subst
         | H : Forall _ [] |- _ => clear H
         end.
  exists [d1; d2], [m1; m2], [y1; y2; y3; y4].
  split; [reflexivity |]. split; [| split].
  - assert (K : d1 = 48 \/ 49 <= d1 <= 50 \/ d1 = 51) by lia.
    destruct K as [-> | [K | ->]].
    + replace (10 * (48 - 48) + (d2 - 48)) with (d2 - 48) by lia.
      apply day_zero. lia.
    + apply day_tens; [lia | apply decimal_value_ascii; lia].
    + replace (10 * (51 - 48) + (d2 - 48)) with (30 + (d2 - 48)) by lia.
      apply day_thirty. lia.
  - assert (K : m1 = 48 \/ m1 = 49) by lia.
    destruct K as [-> | ->].
    + replace (10 * (48 - 48) + (m2 - 48)) with (m2 - 48) by lia.
      apply month_zero. lia.
    + replace (10 * (49 - 48) + (m2 - 48)) with (10 + (m2 - 48)) by lia.
      apply month_ten. lia.
  - split; [reflexivity |]. cbn [Unicode.digits_value].
    rewrite !decimal_value_ascii by lia. f_equal. lia.
Qed.

Lemma Birthday_init_spec (s : pystr) (b : Birthday) :
  Birthday_init s = OK b <->
  exists d m y H,
    day_month_year s d m y
    /\ b = {| birthday_value := DateTime (Date y m d H) 0 0 0 0 |}.
Proof.
  unfold Birthday_init. split.
  - destruct (strptime s) as [t | e] eqn:P.
    + intros [= <-]. apply strptime_spec in P.
      destruct P as (d & m & y & H & S & ->). exists d, m, y, H. auto.
    + destruct e; discriminate.
  - intros (d & m & y & H & S & ->).
    assert (P : strptime s = OK (DateTime (Date y m d H) 0 0 0 0))
      by (apply strptime_spec; eauto 8).
    now rewrite P.
Qed.

Lemma Birthday_init_raises (s : pystr) (e : exn) :
  Birthday_init s = Raise e -> e = BIRTHDAY_ERROR.
Proof.
  unfold Birthday_init. destruct (strptime s) as [t | x] eqn:P;
    [discriminate |].
  destruct (strptime_raises s x P) as [m ->]. now intros [= <-].
Qed.

Lemma Birthday_init_canonical (s : pystr) (y m d : Z)
    (H : Calendar.check_date_fields y m d = true) :
  canonical_fields s = Some (y, m, d) ->
  Birthday_init s
  = OK {| birthday_value := DateTime (Date y m d H) 0 0 0 0 |}.
Proof.
  intros C. apply Birthday_init_spec. exists d, m, y, H.
  split; [now apply canonical_day_month_year | reflexivity].
Qed.

(** C4, as stated, fails: ["1.6.2024"] is not in the form DD.MM.YYYY,
    and [Birthday] accepts it. *)
Lemma birthday_exact_format_counterexample :
  ~ (forall s : pystr,
       canonical_birthday s = false ->
       Birthday_init s = Raise BIRTHDAY_ERROR).
Proof.
  intros H. specialize (H (str "1.6.2024") eq_refl).
  vm_compute in H. discriminate.
Qed.

(** C4, amended: [Birthday(s)] succeeds exactly when [s] is a text
    day.month.year as [strptime] reads ["%d.%m.%Y"] (a day and a month of
    one or two digits, a year of four) whose numbers are a date of the
    calendar, and it then holds that date; every text in the form
    DD.MM.YYYY of a date of the calendar is such a text; every failure
    is the [ValueError] "Invalid date format. Use DD.MM.YYYY". *)
Theorem birthday_accepts_day_month_year (s : pystr) :
  (forall b,
     Birthday_init s = OK b <->
     exists d m y H,
       day_month_year s d m y
       /\ b = {| birthday_value := DateTime (Date y m d H) 0 0 0 0 |})
  /\ (forall e, Birthday_init s = Raise e -> e = BIRTHDAY_ERROR)
  /\ (canonical_birthday s = true -> exists b, Birthday_init s = OK b).
Proof.
  split; [intros b; apply Birthday_init_spec |].
  split; [apply Birthday_init_raises |].
  unfold canonical_birthday.
  destruct (canonical_fields s) as [[[y m] d] |] eqn:C; [| discriminate].
  intros H. eexists. now apply (Birthday_init_canonical s y m d H).
Qed.

Lemma year_digits_short (y : Z) :
  y < 1000 -> (List.length (year_digits y) < 4)%nat.
Proof.
  intros H. unfold year_digits.
  destruct (Z.ltb_spec y 10); [simpl; lia |].
  destruct (Z.ltb_spec y 100); [simpl; lia |].
  destruct (Z.ltb_spec y 1000); [simpl; lia | lia].
Qed.

Lemma canonical_length (s : pystr) (f : Z * Z * Z) :
  canonical_fields s = Some f -> List.length s = 10%nat.
Proof.
  destruct f as [[y m] d]. intros H. apply canonical_fields_inv in H.
  destruct H as (? & ? & ? & ? & ? & ? & ? & ? & -> & _). reflexivity.
Qed.

(** What [get_birthday] returns after [add_birthday] of a text in the
    form DD.MM.YYYY: the text itself when the year has four digits,
    and a shorter text when the year is below 1000. *)
Lemma add_then_get_birthday (s : pystr) (r : ContactRecord) :
  canonical_birthday s = true ->
  exists r' text,
    add_birthday s r = Returns r' tt
    /\ get_birthday r' = Some text
    /\ (1000 <= year_of_text s -> text = s)
    /\ (year_of_text s < 1000 ->
        (List.length text < List.length s)%nat).
Proof.
  unfold canonical_birthday, year_of_text.
  destruct (canonical_fields s) as [[[y m] d] |] eqn:C; [| discriminate].
  intros H. unfold add_birthday, mbind, eval.
  rewrite (Birthday_init_canonical s y m d H C).
  eexists. eexists. split; [reflexivity |].
  unfold get_birthday. cbn [modify birthday set_birthday birthday_value
    dt_date].
  split; [reflexivity |]. split.
  - intros Y. apply (renders_unique _ _ (y, m, d)); [| assumption].
    now apply (strftime_renders (Date y m d H)).
  - intros Y. rewrite (canonical_length s _ C).
    unfold strftime_dmY. rewrite length_app. cbn [year List.length].
    pose proof (year_digits_short y Y). lia.
Qed.

(** C5: [get_birthday] after [add_birthday(s)] does not return [s] for
    every text in the form DD.MM.YYYY of a date of the calendar: the
    year is written without its leading zeros, so for "05.03.0999" the
    record answers "05.03.999".  For every such text, [add_birthday]
    returns; [get_birthday] then returns the text itself when the year
    is 1000 or later, and a shorter text when it is earlier. *)
Theorem birthday_round_trip_short_year :
  canonical_birthday (str "05.03.0999") = true
  /\ (exists r',
        add_birthday (str "05.03.0999") kate = Returns r' tt
        /\ get_birthday r' = Some (str "05.03.999"))
  /\ forall (s : pystr) (r : ContactRecord),
       canonical_birthday s = true ->
       exists r' text,
         add_birthday s r = Returns r' tt
         /\ get_birthday r' = Some text
         /\ (1000 <= year_of_text s -> text = s)
         /\ (year_of_text s < 1000 ->
             (List.length text < List.length s)%nat).
Proof.
  split; [reflexivity |]. split.
  - eexists. split; reflexivity.
  - apply add_then_get_birthday.
Qed.

(** ** The birthday query *)

(** A weekend day is never one of the last two days of the calendar:
    the shift to Monday cannot overflow. *)
Lemma weekend_shift (occ : date) :
  weekday occ = 5 \/ weekday occ = 6 ->
  exists d, date_add occ (7 - weekday occ) = OK d
            /\ toordinal d = toordinal occ + (7 - weekday occ)
            /\ weekday d = 0.
Proof.
  intros W. pose proof (toordinal_bounds occ) as B.
  unfold Calendar.MAXORDINAL in B.
  assert (R : 0 < toordinal occ + (7 - weekday occ) <= Calendar.MAXORDINAL).
  { unfold Calendar.MAXORDINAL, weekday in *.
    Z.div_mod_to_equations. lia. }
  destruct (date_add_ok occ _ R) as (d & E & T).
  exists d. split; [assumption |]. split; [assumption |].
  unfold weekday in *. rewrite T. Z.div_mod_to_equations. lia.
Qed.

Lemma replace_year_occurrence (today : date) (b : Birthday) (occ : date) :
  replace_year (dt_date (birthday_value b)) (year today) = OK occ <->
  is_occurrence today b occ.
Proof.
  unfold is_occurrence.
  pose proof (replace_year_spec (dt_date (birthday_value b)) (year today)) as S.
  split.
  - intros E. rewrite E in S. exact S.
  - intros (Hy & Hm & Hd). unfold replace_year.
    pose proof (date_ok occ) as V. rewrite Hy, Hm, Hd in V.
    destruct (new_date_ok _ _ _ V) as (dt & -> & Y & M & D).
    f_equal. apply date_eq; lia.
Qed.

Lemma replace_year_feb29 (d : date) (y : Z) :
  month d = 2 -> day d = 29 -> Calendar.is_leap y = false ->
  replace_year d y
  = Raise (ValueError (date_error y 2 29)).
Proof.
  intros Hm Hd L. unfold replace_year. rewrite Hm, Hd.
  apply new_date_fail. unfold Calendar.check_date_fields,
    Calendar.days_in_month. rewrite L. simpl.
  now rewrite !andb_false_r.
Qed.

(** The window the query keeps, in days. *)
Lemma window_in_days (today end_of_window occ : date) :
  date_add today 7 = OK end_of_window ->
  date_le today occ && date_le occ end_of_window = true <->
  toordinal today <= toordinal occ <= toordinal today + 7.
Proof.
  intros E. apply date_add_inv in E.
  rewrite andb_true_iff, !date_le_toordinal. lia.
Qed.

Lemma congratulated_weekday (occ : date) :
  1000 <= year occ ->
  0 <= weekday occ <= 4 -> congratulated_on occ (strftime_dmY occ).
Proof.
  intros Y W. exists occ. split; [now apply strftime_renders |].
  repeat split; intros; lia.
Qed.

Lemma congratulated_weekend (occ d : date) :
  1000 <= year occ ->
  weekday occ = 5 \/ weekday occ = 6 ->
  date_add occ (7 - weekday occ) = OK d ->
  congratulated_on occ (strftime_dmY d).
Proof.
  intros Y W E. destruct (weekend_shift occ W) as (d' & E' & T & M).
  assert (d' = d) by congruence. subst d'.
  assert (Yd : year occ <= year d) by (apply year_mono; lia).
  exists d. split; [apply strftime_renders; lia |].
  repeat split; intros; lia.
Qed.

(** What one turn of the loop does: it raises the [ValueError] of
    [replace], or leaves the list alone, or appends one entry. *)
Lemma birthday_step_spec (today end_of_window : date) (r : ContactRecord)
    (acc : list entry) :
  match birthday_step today end_of_window r acc with
  | Raise e =>
      exists b m,
        birthday r = Some b /\ e = ValueError m
        /\ replace_year (dt_date (birthday_value b)) (year today) = Raise e
  | OK l =>
      (l = acc
       /\ (birthday r = None
           \/ exists b occ,
                birthday r = Some b
                /\ replace_year (dt_date (birthday_value b)) (year today)
                   = OK occ
                /\ date_le today occ && date_le occ end_of_window = false))
      \/ (exists b occ text,
            birthday r = Some b
            /\ replace_year (dt_date (birthday_value b)) (year today)
               = OK occ
            /\ date_le today occ && date_le occ end_of_window = true
            /\ l = acc ++ [{| entry_name := name_value (name r);
                              congratulation_date := text |}]
            /\ (1000 <= year today -> congratulated_on occ text))
  end.
Proof.
  unfold birthday_step. destruct (birthday r) as [b |]; [| left; auto].
  pose proof (replace_year_spec (dt_date (birthday_value b)) (year today)) as S.
  destruct (replace_year (dt_date (birthday_value b)) (year today))
    as [occ | e] eqn:R; cbn [bind].
  - destruct (date_le today occ && date_le occ end_of_window) eqn:W.
    + pose proof (weekday_range occ) as WR.
      destruct ((weekday occ =? 5) || (weekday occ =? 6)) eqn:K.
      * assert (K' : weekday occ = 5 \/ weekday occ = 6)
          by (apply orb_true_iff in K; rewrite !Z.eqb_eq in K; exact K).
        destruct (weekend_shift occ K') as (d & E & _). rewrite E. cbn [bind].
        right. exists b, occ, (strftime_dmY d).
        destruct S as (Sy & _).
        repeat split; auto. intros Y.
        apply congratulated_weekend; [lia | assumption | assumption].
      * apply orb_false_iff in K. rewrite !Z.eqb_neq in K. cbn [bind].
        right. exists b, occ, (strftime_dmY occ).
        destruct S as (Sy & _).
        repeat split; auto. intros Y. apply congratulated_weekday; lia.
    + left. split; [reflexivity |]. right. exists b, occ. auto.
  - destruct S as [m ->]. exists b, m. auto.
Qed.

Lemma birthday_loop_sound (today end_of_window : date)
    (rs : list ContactRecord) :
  1000 <= year today ->
  forall acc l,
    birthday_loop today end_of_window rs acc = OK l ->
    forall e, In e l ->
      In e acc \/ exists r, In r rs /\ emitted today end_of_window r e.
Proof.
  intros Y. induction rs as [| r rs IH]; simpl; intros acc l H e He.
  - injection H as <-. auto.
  - pose proof (birthday_step_spec today end_of_window r acc) as S.
    destruct (birthday_step today end_of_window r acc) as [acc' | x];
      simpl in H; [| discriminate].
    destruct (IH acc' l H e He) as [A | (r' & Hr & Em)];
      [| right; exists r'; auto].
    destruct S as [(-> & _) | (b & occ & text & B & R & W & -> & C)];
      [auto |].
    apply in_app_iff in A. destruct A as [A | [<- | []]]; [auto |].
    specialize (C Y).
    right. exists r. split; [auto |]. exists b, occ. simpl. auto.
Qed.

Lemma birthday_loop_complete (today end_of_window : date)
    (rs : list ContactRecord) :
  1000 <= year today ->
  forall acc l,
    birthday_loop today end_of_window rs acc = OK l ->
    (forall e, In e acc -> In e l)
    /\ forall r b occ,
         In r rs -> birthday r = Some b ->
         replace_year (dt_date (birthday_value b)) (year today) = OK occ ->
         date_le today occ && date_le occ end_of_window = true ->
         exists e, In e l /\ entry_name e = name_value (name r)
                   /\ congratulated_on occ (congratulation_date e).
Proof.
  intros Y. induction rs as [| r rs IH]; simpl; intros acc l H.
  - injection H as <-. split; [auto | intros ? ? ? []].
  - pose proof (birthday_step_spec today end_of_window r acc) as S.
    destruct (birthday_step today end_of_window r acc) as [acc' | x];
      simpl in H; [| discriminate].
    destruct (IH acc' l H) as [Keep Rest]. split.
    + intros e He. apply Keep.
      destruct S as [(-> & _) | (? & ? & ? & _ & _ & _ & -> & _)];
        [assumption | apply in_app_iff; auto].
    + intros r0 b occ [<- | Hr] B R W; [| eauto].
      destruct S as [(_ & [N | (b' & occ' & B' & R' & W')])
                    | (b' & occ' & text & B' & R' & W' & -> & C)].
      * congruence.
      * assert (b' = b) by congruence. subst b'.
        assert (occ' = occ) by congruence. subst occ'. congruence.
      * assert (b' = b) by congruence. subst b'.
        assert (occ' = occ) by congruence. subst occ'.
        specialize (C Y).
        eexists. split; [apply Keep, in_app_iff; right; left; reflexivity |].
        simpl. auto.
Qed.

Lemma birthday_loop_raises (today end_of_window : date)
    (rs : list ContactRecord) (r : ContactRecord) (b : Birthday) (x : exn) :
  In r rs -> birthday r = Some b ->
  replace_year (dt_date (birthday_value b)) (year today) = Raise x ->
  forall acc, exists m,
    birthday_loop today end_of_window rs acc = Raise (ValueError m).
Proof.
  intros Hr B R. induction rs as [| r0 rs IH]; [destruct Hr |].
  intros acc. simpl.
  pose proof (birthday_step_spec today end_of_window r0 acc) as S.
  destruct (birthday_step today end_of_window r0 acc) as [acc' | e]; simpl.
  - destruct Hr as [-> | Hr]; [| now apply IH].
    exfalso.
    destruct S as [(_ & [N | (b' & occ & B' & R' & _)])
                  | (b' & occ & text & B' & R' & _)]; congruence.
  - destruct S as (_ & m & _ & -> & _). eauto.
Qed.

(** [replace(year=y)] succeeds on every date but 29 February moved to a
    year without one. *)
Lemma replace_year_ok (d : date) (y : Z) :
  1 <= y <= 9999 ->
  negb ((month d =? 2) && (day d =? 29)) || Calendar.is_leap y = true ->
  exists d', replace_year d y = OK d'.
Proof.
  intros Hy H. pose proof (date_fields d) as (_ & Hm & Hd).
  unfold replace_year.
  destruct (new_date_ok y (month d) (day d)) as (d' & E & _); [| eauto].
  apply check_date_fields_spec. split; [assumption |].
  split; [assumption |]. split; [lia |].
  unfold Calendar.days_in_month in *.
  destruct (Z.eqb_spec (month d) 2) as [M | M]; cbn [andb] in *.
  - destruct (Calendar.is_leap y); [| cbn [orb] in H].
    + destruct (Calendar.is_leap (year d)); rewrite M in *;
        unfold Calendar.tab in *; simpl in *; lia.
    + rewrite orb_false_r in H. apply negb_true_iff, Z.eqb_neq in H.
      destruct (Calendar.is_leap (year d)); rewrite M in *;
        unfold Calendar.tab in *; simpl in *; lia.
  - lia.
Qed.

Lemma birthday_loop_returns (today end_of_window : date)
    (rs : list ContactRecord) :
  forallb (has_occurrence_in (year today)) rs = true ->
  forall acc, exists l, birthday_loop today end_of_window rs acc = OK l.
Proof.
  induction rs as [| r rs IH]; simpl; intros H acc; [eauto |].
  apply andb_true_iff in H. destruct H as [Hr Hrs].
  pose proof (birthday_step_spec today end_of_window r acc) as S.
  destruct (birthday_step today end_of_window r acc) as [acc' | e];
    cbn [bind]; [now apply IH |].
  exfalso. destruct S as (b & m & B & -> & R).
  unfold has_occurrence_in in Hr. rewrite B in Hr.
  pose proof (date_fields today) as (Hy & _).
  destruct (replace_year_ok _ _ Hy Hr) as [d' E]. congruence.
Qed.

(** The three birthday scenarios of 10 June 2024: a Wednesday is kept as
    it is, a Saturday moves to Monday, a date far away is left out. *)
Example birthdays_of_10_june_2024 :
  get_upcoming_birthdays (book_of [kate; sam; jan]) (monday_10_june_2024 9 0)
  = OK [entry_of "kate" "12.06.2024"; entry_of "sam" "17.06.2024"].
Proof. reflexivity. Qed.

Example no_birthdays_no_error :
  get_upcoming_birthdays (book_of [bob]) (monday_10_june_2024 9 0) = OK [].
Proof. reflexivity. Qed.

(** C1: the query keeps an occurrence that lies seven days after today,
    outside the seven-day window from today to today + 6 days: on
    10.06.2024 a birthday of 17.06 is reported, although 17.06.2024 is
    later than 16.06.2024, the day six days after today. *)
Theorem eighth_day_is_reported :
  get_upcoming_birthdays (book_of [dana]) (monday_10_june_2024 9 0)
  = OK [entry_of "dana" "17.06.2024"]
  /\ is_occurrence (Date 2024 6 10 eq_refl)
       {| birthday_value := DateTime (Date 1990 6 17 eq_refl) 0 0 0 0 |}
       (Date 2024 6 17 eq_refl)
  /\ date_add (Date 2024 6 10 eq_refl) 6 = OK (Date 2024 6 16 eq_refl)
  /\ date_le (Date 2024 6 17 eq_refl) (Date 2024 6 16 eq_refl) = false.
Proof. repeat split. Qed.

(** C2: when today + 7 days is a date of the calendar and no birthday
    of 29 February meets a year without one, the query returns a list in
    which every entry belongs to a record whose occurrence this year lies
    in the window the query keeps, and every record with such an
    occurrence (any from today to today + 7 days, so any of the seven
    days from today) has an entry; the entry carries the record's name
    and the congratulation date written as DD.MM.YYYY: the Monday two
    days after a Saturday, the Monday one day after a Sunday, the
    occurrence itself from Monday to Friday. *)
Theorem weekend_birthdays_move_to_monday (book : AddressBook) (w : World) :
  toordinal (today_of w) + 7 <= Calendar.MAXORDINAL ->
  forallb (has_occurrence_in (year (today_of w))) (dict_values (data book))
  = true ->
  exists l,
    get_upcoming_birthdays book w = OK l
    /\ (forall e, In e l ->
          exists r b occ,
            In r (dict_values (data book)) /\ birthday r = Some b
            /\ is_occurrence (today_of w) b occ
            /\ toordinal (today_of w) <= toordinal occ
               <= toordinal (today_of w) + 7
            /\ entry_name e = name_value (name r)
            /\ congratulated_on occ (congratulation_date e))
    /\ (forall r b occ,
          In r (dict_values (data book)) -> birthday r = Some b ->
          is_occurrence (today_of w) b occ ->
          toordinal (today_of w) <= toordinal occ
          <= toordinal (today_of w) + 7 ->
          exists e,
            In e l /\ entry_name e = name_value (name r)
            /\ congratulated_on occ (congratulation_date e)).
Proof.
  intros O S. unfold get_upcoming_birthdays. fold (today_of w).
  pose proof (toordinal_bounds (today_of w)) as B.
  destruct (date_add_ok (today_of w) 7 ltac:(lia))
    as (end_of_window & E & _).
  rewrite E. cbn [bind].
  destruct (birthday_loop_returns (today_of w) end_of_window _ S [])
    as [l H].
  exists l. split; [assumption |]. split.
  - intros e He.
    destruct (birthday_loop_sound _ _ _ (clock_year_four w) _ _ H e He)
      as [[] | (r & Hr & b & occ & Hb & R & W & N & C)].
    exists r, b, occ.
    rewrite (window_in_days _ _ _ E) in W.
    rewrite replace_year_occurrence in R. auto 10.
  - intros r b occ Hr Hb Occ W.
    destruct (birthday_loop_complete _ _ _ (clock_year_four w) _ _ H) as [_ C].
    apply (C r b occ Hr Hb).
    + now apply replace_year_occurrence.
    + now apply (window_in_days _ _ _ E).
Qed.

Lemma weekend_birthdays_move_to_monday_witness :
  let book := book_of [kate; sam; jan] in
  let w := monday_10_june_2024 9 0 in
  get_upcoming_birthdays book w
  = OK [entry_of "kate" "12.06.2024"; entry_of "sam" "17.06.2024"]
  /\ exists l,
       get_upcoming_birthdays book w = OK l
       /\ (forall e, In e l ->
             exists r b occ,
               In r (dict_values (data book)) /\ birthday r = Some b
               /\ is_occurrence (today_of w) b occ
               /\ toordinal (today_of w) <= toordinal occ
                  <= toordinal (today_of w) + 7
               /\ entry_name e = name_value (name r)
               /\ congratulated_on occ (congratulation_date e))
       /\ (forall r b occ,
             In r (dict_values (data book)) -> birthday r = Some b ->
             is_occurrence (today_of w) b occ ->
             toordinal (today_of w) <= toordinal occ
             <= toordinal (today_of w) + 7 ->
             exists e,
               In e l /\ entry_name e = name_value (name r)
               /\ congratulated_on occ (congratulation_date e)).
Proof.
  intros book w. split; [reflexivity |].
  apply (weekend_birthdays_move_to_monday book w).
  - vm_compute. discriminate.
  - reflexivity.
Defined.

(** C7, as stated, fails: the query takes no date from its caller and
    reads the clock, so the same directory gives different results on
    different days. *)
Lemma clock_is_read_counterexample :
  ~ (forall (book : AddressBook) (w1 w2 : World),
       get_upcoming_birthdays book w1 = get_upcoming_birthdays book w2).
Proof.
  intros H.
  specialize (H (book_of [kate]) (world_on 2024 6 10 eq_refl)
                (world_on 2024 7 10 eq_refl)).
  vm_compute in H. discriminate.
Qed.

(** C7, amended: the result of the query is determined by the directory
    and by the date the system clock shows when it is called; two calls
    on the same directory on the same day, at whatever time of the day,
    give the same result. *)
Theorem same_day_same_birthdays (book : AddressBook) (w1 w2 : World) :
  dt_date (datetime_today w1) = dt_date (datetime_today w2) ->
  get_upcoming_birthdays book w1 = get_upcoming_birthdays book w2.
Proof.
  intros H. unfold get_upcoming_birthdays. now rewrite H.
Qed.

Lemma same_day_same_birthdays_witness :
  monday_10_june_2024 9 0 <> monday_10_june_2024 23 59
  /\ get_upcoming_birthdays (book_of [kate; sam]) (monday_10_june_2024 9 0)
     = get_upcoming_birthdays (book_of [kate; sam])
         (monday_10_june_2024 23 59).
Proof.
  split; [discriminate |].
  apply (same_day_same_birthdays (book_of [kate; sam])
           (monday_10_june_2024 9 0) (monday_10_june_2024 23 59)).
  reflexivity.
Defined.

(** C10: with a record born on 29 February in the directory and a
    current year that is not a leap year, the query returns no list: it
    raises, and what it raises is the [ValueError] of [replace] whenever
    the end of the window, today + 7 days, is a date of the calendar
    (that is, unless today is one of the last seven days of the year
    9999, when the addition itself overflows first). *)
Theorem leap_day_birthday_fails_query (book : AddressBook) (w : World)
    (r : ContactRecord) (b : Birthday) :
  In r (dict_values (data book)) ->
  birthday r = Some b ->
  month (dt_date (birthday_value b)) = 2 ->
  day (dt_date (birthday_value b)) = 29 ->
  Calendar.is_leap (year (today_of w)) = false ->
  (exists e, get_upcoming_birthdays book w = Raise e)
  /\ (toordinal (today_of w) + 7 <= Calendar.MAXORDINAL ->
      exists m, get_upcoming_birthdays book w = Raise (ValueError m)).
Proof.
  intros Hr B Hm Hd L.
  pose proof (replace_year_feb29 _ _ Hm Hd L) as R.
  unfold get_upcoming_birthdays. fold (today_of w).
  assert (V : forall end_of_window, exists m,
             birthday_loop (today_of w) end_of_window
               (dict_values (data book)) [] = Raise (ValueError m))
    by (intros; eapply birthday_loop_raises; eauto).
  split.
  - destruct (date_add (today_of w) 7) as [end_of_window | x]; cbn [bind].
    + destruct (V end_of_window) as [m ->]. eauto.
    + eauto.
  - intros O. pose proof (toordinal_bounds (today_of w)).
    destruct (date_add_ok (today_of w) 7 ltac:(lia)) as (end_of_window & -> & _).
    cbn [bind]. apply V.
Qed.

Lemma leap_day_birthday_fails_query_witness :
  (exists e,
     get_upcoming_birthdays (book_of [kate; leo; sam])
       (world_on 2023 6 10 eq_refl) = Raise e)
  /\ (toordinal (today_of (world_on 2023 6 10 eq_refl)) + 7
      <= Calendar.MAXORDINAL ->
      exists m,
        get_upcoming_birthdays (book_of [kate; leo; sam])
          (world_on 2023 6 10 eq_refl) = Raise (ValueError m)).
Proof.
  apply (leap_day_birthday_fails_query (book_of [kate; leo; sam])
           (world_on 2023 6 10 eq_refl) leo
           {| birthday_value := DateTime (Date 2000 2 29 eq_refl) 0 0 0 0 |}).
  - simpl. auto.
  - reflexivity.
  - reflexivity.
  - reflexivity.
  - reflexivity.
Defined.

(** * More properties of the records *)

Lemma Phone_init_ok (s : pystr) :
  Unicode.len s = 10 -> forallb Unicode.char_isdigit s = true ->
  Phone_init s = OK {| phone_value := s |}.
Proof.
  intros L F. destruct (Phone_init_cases s) as [(E & _) | (_ & N)];
    [assumption | tauto].
Qed.

Lemma find_loop_some (phone : pystr) (ps : list Phone) (p : Phone) :
  find_loop phone ps = Some p ->
  exists before after,
    ps = before ++ p :: after /\ phone_value p = phone
    /\ forall q, In q before -> phone_value q <> phone.
Proof.
  induction ps as [| q ps IH]; simpl; [discriminate |].
  destruct (pystr_eqb (phone_value q) phone) eqn:E.
  - intros [= ->]. apply pystr_eqb_eq in E.
    exists [], ps. split; [reflexivity |]. split; [assumption |].
    intros ? [].
  - intros H. destruct (IH H) as (before & after & -> & V & B).
    exists (q :: before), after. split; [reflexivity |].
    split; [assumption |]. apply pystr_eqb_neq in E.
    intros x [<- | Hx]; auto.
Qed.

Lemma find_loop_none (phone : pystr) (ps : list Phone) :
  find_loop phone ps = None <->
  forall q, In q ps -> phone_value q <> phone.
Proof.
  induction ps as [| q ps IH]; simpl.
  - split; [intros _ ? [] | reflexivity].
  - destruct (pystr_eqb (phone_value q) phone) eqn:E.
    + apply pystr_eqb_eq in E. split; [discriminate |].
      intros H. exfalso. apply (H q); auto.
    + apply pystr_eqb_neq in E. rewrite IH. split.
      * intros H x [<- | Hx]; auto.
      * intros H x Hx. apply H. auto.
Qed.

(** X1: [find_phone] returns the first phone of the record whose value is
    the text asked for, and [None] exactly when no phone has that
    value. *)
Theorem find_phone_first_match (phone : pystr) (r : ContactRecord) :
  (forall p, find_phone phone r = Some p ->
     exists before after,
       phones r = before ++ p :: after /\ phone_value p = phone
       /\ forall q, In q before -> phone_value q <> phone)
  /\ (find_phone phone r = None <->
      forall q, In q (phones r) -> phone_value q <> phone).
Proof.
  split; [intros p; apply find_loop_some | apply find_loop_none].
Qed.

Lemma find_loop_app (phone : pystr) (ps qs : list Phone) :
  find_loop phone (ps ++ qs)
  = match find_loop phone ps with
    | Some p => Some p
    | None => find_loop phone qs
    end.
Proof.
  induction ps as [| q ps IH]; simpl; [reflexivity |].
  destruct (pystr_eqb (phone_value q) phone); auto.
Qed.

Lemma pystr_eqb_refl (s : pystr) : pystr_eqb s s = true.
Proof. now apply pystr_eqb_eq. Qed.

(** X2: [add_phone] of a text of ten digits returns; the new phone is the
    last of the record, the phones before it, the name and the birthday
    are as they were, and [find_phone] then finds a phone of that
    value. *)
Theorem add_phone_then_find (phone : pystr) (r : ContactRecord) :
  Unicode.len phone = 10 ->
  forallb Unicode.char_isdigit phone = true ->
  exists r',
    add_phone phone r = Returns r' tt
    /\ phones r' = phones r ++ [{| phone_value := phone |}]
    /\ name r' = name r /\ birthday r' = birthday r
    /\ exists p, find_phone phone r' = Some p /\ phone_value p = phone.
Proof.
  intros L F. unfold add_phone, mbind, eval.
  rewrite (Phone_init_ok phone L F). cbn [modify].
  eexists. split; [reflexivity |]. cbn [phones set_phones name birthday].
  split; [reflexivity |]. split; [reflexivity |]. split; [reflexivity |].
  unfold find_phone. cbn [phones set_phones]. rewrite find_loop_app.
  destruct (find_loop phone (phones r)) as [p |] eqn:E.
  - exists p. split; [reflexivity |].
    apply find_loop_some in E. destruct E as (_ & _ & _ & V & _). exact V.
  - eexists. simpl. rewrite pystr_eqb_refl. split; reflexivity.
Qed.

Lemma add_phone_then_find_witness :
  exists r',
    add_phone (str "0987654321") kate = Returns r' tt
    /\ phones r' = phones kate ++ [{| phone_value := str "0987654321" |}]
    /\ name r' = name kate /\ birthday r' = birthday kate
    /\ exists p, find_phone (str "0987654321") r' = Some p
                 /\ phone_value p = str "0987654321".
Proof.
  apply (add_phone_then_find (str "0987654321") kate); reflexivity.
Defined.

Lemma filter_find_loop (phone q : pystr) (ps : list Phone) :
  q <> phone ->
  find_loop q
    (filter (fun p => negb (pystr_eqb (phone_value p) phone)) ps)
  = find_loop q ps.
Proof.
  intros N. induction ps as [| p ps IH]; simpl; [reflexivity |].
  destruct (pystr_eqb (phone_value p) phone) eqn:E; simpl.
  - apply pystr_eqb_eq in E.
    replace (pystr_eqb (phone_value p) q) with false; [exact IH |].
    symmetry. apply pystr_eqb_neq. congruence.
  - now rewrite IH.
Qed.

Lemma filter_absent (phone : pystr) (ps : list Phone) :
  (forall q, In q ps -> phone_value q <> phone) ->
  filter (fun p => negb (pystr_eqb (phone_value p) phone)) ps = ps.
Proof.
  induction ps as [| p ps IH]; simpl; intros H; [reflexivity |].
  replace (pystr_eqb (phone_value p) phone) with false
    by (symmetry; apply pystr_eqb_neq; auto).
  simpl. f_equal. auto.
Qed.

(** X3: [remove_phone] always returns; afterwards [find_phone] of the
    removed text finds nothing, [find_phone] of any other text finds
    what it found before, the name and the birthday are untouched, and
    a record without that phone is left as it was. *)
Theorem remove_phone_then_find (phone : pystr) (r : ContactRecord) :
  exists r',
    remove_phone phone r = Returns r' tt
    /\ find_phone phone r' = None
    /\ (forall q, q <> phone -> find_phone q r' = find_phone q r)
    /\ name r' = name r /\ birthday r' = birthday r
    /\ (find_phone phone r = None -> r' = r).
Proof.
  eexists. split; [reflexivity |]. unfold find_phone.
  cbn [phones set_phones name birthday].
  split; [| split; [| split; [| split]]]; try reflexivity.
  - apply find_loop_none. intros q Hq. apply filter_In in Hq.
    destruct Hq as [_ Hq]. apply negb_true_iff, pystr_eqb_neq in Hq.
    exact Hq.
  - intros q N. now apply filter_find_loop.
  - intros H. rewrite filter_absent by (now apply find_loop_none).
    apply set_phones_same.
Qed.

(** X4: Adding a phone the record does not have and removing it again gives
    the record back. *)
Theorem add_then_remove_phone (phone : pystr) (r : ContactRecord) :
  Unicode.len phone = 10 ->
  forallb Unicode.char_isdigit phone = true ->
  find_phone phone r = None ->
  (_ <~ add_phone phone ;; remove_phone phone) r = Returns r tt.
Proof.
  intros L F A. unfold mbind, add_phone, mbind, eval.
  rewrite (Phone_init_ok phone L F). cbn [modify].
  unfold remove_phone, modify. f_equal.
  cbn [phones set_phones]. rewrite filter_app. simpl.
  rewrite pystr_eqb_refl. simpl. rewrite app_nil_r.
  rewrite filter_absent by (now apply find_loop_none).
  destruct r. reflexivity.
Qed.

Lemma add_then_remove_phone_witness :
  (_ <~ add_phone (str "0987654321") ;; remove_phone (str "0987654321"))
    kate = Returns kate tt.
Proof.
  apply (add_then_remove_phone (str "0987654321") kate); reflexivity.
Defined.

Lemma edit_loop_find_old (old new : pystr) (ps : list Phone) :
  old <> new -> find_loop old (edit_loop old new ps) = None.
Proof.
  intros N. induction ps as [| p ps IH]; simpl; [reflexivity |].
  destruct (pystr_eqb (phone_value p) old) eqn:E; simpl.
  - replace (pystr_eqb new old) with false
      by (symmetry; apply pystr_eqb_neq; congruence).
    exact IH.
  - now rewrite E.
Qed.

Lemma edit_loop_find_new (old new : pystr) (ps : list Phone) :
  find_loop old ps <> None ->
  find_loop new (edit_loop old new ps) <> None.
Proof.
  induction ps as [| p ps IH]; simpl; [auto |].
  destruct (pystr_eqb (phone_value p) old) eqn:E; simpl.
  - rewrite pystr_eqb_refl. discriminate.
  - destruct (pystr_eqb (phone_value p) new); [discriminate | exact IH].
Qed.

Lemma edit_loop_find_other (old new q : pystr) (ps : list Phone) :
  q <> old -> q <> new ->
  find_loop q (edit_loop old new ps) = find_loop q ps.
Proof.
  intros No Nn. induction ps as [| p ps IH]; simpl; [reflexivity |].
  destruct (pystr_eqb (phone_value p) old) eqn:E; simpl.
  - apply pystr_eqb_eq in E.
    replace (pystr_eqb new q) with false
      by (symmetry; apply pystr_eqb_neq; congruence).
    replace (pystr_eqb (phone_value p) q) with false
      by (symmetry; apply pystr_eqb_neq; congruence).
    exact IH.
  - now rewrite IH.
Qed.

(** X5: After [edit_phone(old, new)] with two different texts, [find_phone]
    no longer finds [old]; it finds [new] whenever it found [old]
    before; and what it finds for any third text is as before. *)
Theorem edit_phone_then_find (old new : pystr) (r : ContactRecord) :
  old <> new ->
  exists r',
    edit_phone old new r = Returns r' tt
    /\ find_phone old r' = None
    /\ (find_phone old r <> None -> find_phone new r' <> None)
    /\ (forall q, q <> old -> q <> new ->
          find_phone q r' = find_phone q r).
Proof.
  intros N. eexists. split; [reflexivity |].
  unfold find_phone. cbn [phones set_phones].
  split; [now apply edit_loop_find_old |].
  split; [apply edit_loop_find_new |].
  intros q. apply edit_loop_find_other.
Qed.

Lemma edit_phone_then_find_witness :
  exists r',
    edit_phone (str "1234567890") (str "12") kate = Returns r' tt
    /\ find_phone (str "1234567890") r' = None
    /\ (find_phone (str "1234567890") kate <> None ->
        find_phone (str "12") r' <> None)
    /\ (forall q, q <> str "1234567890" -> q <> str "12" ->
          find_phone q r' = find_phone q kate).
Proof.
  apply (edit_phone_then_find (str "1234567890") (str "12") kate).
  discriminate.
Defined.

Lemma Phone_init_value (s : pystr) (p : Phone) :
  Phone_init s = OK p -> p = {| phone_value := s |}.
Proof.
  destruct (Phone_init_cases s) as [(E & _) | (E & _)]; rewrite E;
    [now intros [= <-] | discriminate].
Qed.

Lemma edit_loop_In (old new : pystr) (ps : list Phone) (q : Phone) :
  In q (edit_loop old new ps) ->
  (In q ps /\ phone_value q <> old)
  \/ (q = {| phone_value := new |} /\ find_loop old ps <> None).
Proof.
  induction ps as [| p ps IH]; simpl; [intros [] |].
  destruct (pystr_eqb (phone_value p) old) eqn:E.
  - intros [<- | H]; [right; split; [reflexivity | discriminate] |].
    destruct (IH H) as [[I V] | [-> _]]; [left; auto |].
    right. split; [reflexivity | discriminate].
  - apply pystr_eqb_neq in E. intros [<- | H]; [left; auto |].
    destruct (IH H) as [[I V] | [-> F]]; [left; auto | right; auto].
Qed.

Lemma edit_loop_new_In (old new : pystr) (ps : list Phone) :
  find_loop old ps <> None ->
  In {| phone_value := new |} (edit_loop old new ps).
Proof.
  induction ps as [| p ps IH]; simpl; [congruence |].
  destruct (pystr_eqb (phone_value p) old); [left; reflexivity |].
  intros H. right. auto.
Qed.

(** X6: A new record has only valid phones, and [add_phone], [remove_phone]
    and [add_birthday] keep it so, whether they return or raise;
    [edit_phone(old, new)] keeps it so exactly when the record has no
    phone [old] or [new] is itself a valid phone. *)
Theorem phones_stay_valid (n : pystr) (r : ContactRecord) :
  valid_phones (Record_init n)
  /\ (valid_phones r ->
      (forall s, valid_phones (state_of (add_phone s r)))
      /\ (forall s, valid_phones (state_of (remove_phone s r)))
      /\ (forall s, valid_phones (state_of (add_birthday s r)))
      /\ (forall old new,
            valid_phones (state_of (edit_phone old new r)) <->
            find_phone old r = None \/ exists p, Phone_init new = OK p)).
Proof.
  split; [intros p [] |].
  intros V. split; [| split; [| split]].
  - intros s. unfold add_phone, mbind, eval.
    destruct (Phone_init s) as [p |] eqn:E; cbn [state_of modify]; [| exact V].
    intros q Hq. cbn [phones set_phones] in Hq. apply in_app_iff in Hq.
    destruct Hq as [Hq | [<- | []]]; [now apply V |].
    pose proof (Phone_init_value _ _ E) as ->. exact E.
  - intros s q Hq. cbn in Hq. apply filter_In in Hq. apply V, Hq.
  - intros s. unfold add_birthday, mbind, eval.
    destruct (Birthday_init s); cbn [state_of modify]; exact V.
  - intros old new. cbn [state_of edit_phone modify]. split.
    + intros W. destruct (find_loop old (phones r)) eqn:F; [| left; exact F].
      right. exists {| phone_value := new |}.
      apply (W {| phone_value := new |}). cbn [phones set_phones].
      apply edit_loop_new_In. congruence.
    + intros H q Hq. cbn [phones set_phones] in Hq.
      apply edit_loop_In in Hq.
      destruct Hq as [[I _] | [-> F]]; [now apply V |].
      destruct H as [H | [p H]]; [unfold find_phone in H; congruence |].
      pose proof (Phone_init_value _ _ H) as ->. exact H.
Qed.

Lemma digit_chars (n : Z) :
  0 <= n < 100 ->
  digit_char (n / 10) = 48 + n / 10 /\ digit_char n = 48 + n mod 10.
Proof.
  intros H. unfold digit_char. split; [| reflexivity].
  rewrite Z.mod_small; [reflexivity |]. Z.div_mod_to_equations. lia.
Qed.

Lemma day_text_of_day (d : Z) :
  1 <= d <= 31 -> day_text [digit_char (d / 10); digit_char d] d.
Proof.
  intros H. destruct (digit_chars d ltac:(lia)) as [-> ->].
  assert (E : d = 10 * (d / 10) + d mod 10) by (apply Z.div_mod; lia).
  assert (R : 0 <= d mod 10 < 10) by (apply Z.mod_pos_bound; lia).
  remember (d / 10) as q eqn:Q. remember (d mod 10) as c eqn:C.
  clear Q C. subst d.
  assert (K : q = 0 \/ 1 <= q <= 2 \/ q = 3) by lia.
  destruct K as [-> | [K | ->]].
  - replace (10 * 0 + c) with (48 + c - 48) by lia. apply day_zero. lia.
  - replace (10 * q + c) with (10 * (48 + q - 48) + c) by lia.
    apply day_tens; [lia |].
    rewrite decimal_value_ascii by lia. f_equal. lia.
  - replace (10 * 3 + c) with (30 + (48 + c - 48)) by lia.
    apply day_thirty. lia.
Qed.

Lemma month_text_of_month (m : Z) :
  1 <= m <= 12 -> month_text [digit_char (m / 10); digit_char m] m.
Proof.
  intros H. destruct (digit_chars m ltac:(lia)) as [-> ->].
  assert (E : m = 10 * (m / 10) + m mod 10) by (apply Z.div_mod; lia).
  assert (R : 0 <= m mod 10 < 10) by (apply Z.mod_pos_bound; lia).
  remember (m / 10) as q eqn:Q. remember (m mod 10) as c eqn:C.
  clear Q C. subst m.
  assert (K : q = 0 \/ q = 1) by lia.
  destruct K as [-> | ->].
  - replace (10 * 0 + c) with (48 + c - 48) by lia. apply month_zero. lia.
  - replace (10 * 1 + c) with (10 + (48 + c - 48)) by lia.
    apply month_ten. lia.
Qed.

(** A year below 1000 is written with fewer than four digits, and
    [strptime] does not read the text. *)
Lemma strftime_short_year_unread (d : date) (dv mv yv : Z) :
  year d < 1000 -> ~ day_month_year (strftime_dmY d) dv mv yv.
Proof.
  intros Y (dt & mt & yt & E & Dd & Dm & [Ly _]).
  pose proof (date_fields d) as (_ & Hm & Hd).
  pose proof (days_in_month_pos (year d) (month d) Hm) as B.
  pose proof (day_text_of_day (day d) ltac:(lia)) as Td.
  pose proof (month_text_of_month (month d) Hm) as Tm.
  unfold strftime_dmY in E.
  change ([digit_char (day d / 10); digit_char (day d); 46;
           digit_char (month d / 10); digit_char (month d); 46]
          ++ year_digits (year d))
    with ([digit_char (day d / 10); digit_char (day d)]
          ++ 46 :: ([digit_char (month d / 10); digit_char (month d)]
                    ++ 46 :: year_digits (year d))) in E.
  change (dt ++ [46] ++ mt ++ [46] ++ yt)
    with (dt ++ 46 :: (mt ++ 46 :: yt)) in E.
  destruct (day_text_prefix _ _ _ _ _ _ Td Dd E) as [_ E1].
  destruct (month_text_prefix _ _ _ _ _ _ Tm Dm E1) as [_ E2].
  pose proof (year_digits_short (year d) Y) as S.
  rewrite E2 in S. lia.
Qed.

(** X7: The text [strftime] writes for a date is read back by [Birthday]
    as that date, at midnight, when the year of the date has four
    digits, and is rejected by [Birthday] when the year is below 1000;
    so for a record whose birthday has a year of four digits,
    [add_birthday] of the text that [get_birthday] returns succeeds and
    [get_birthday] returns the same text again. *)
Theorem birthday_text_reads_back (d : date) (r : ContactRecord) :
  (1000 <= year d ->
   Birthday_init (strftime_dmY d)
   = OK {| birthday_value := DateTime d 0 0 0 0 |})
  /\ (year d < 1000 ->
      Birthday_init (strftime_dmY d) = Raise BIRTHDAY_ERROR)
  /\ (forall b text,
        birthday r = Some b ->
        1000 <= year (dt_date (birthday_value b)) ->
        get_birthday r = Some text ->
        exists r',
          add_birthday text r = Returns r' tt
          /\ get_birthday r' = Some text
          /\ phones r' = phones r /\ name r' = name r).
Proof.
  assert (A : forall d0, 1000 <= year d0 ->
                Birthday_init (strftime_dmY d0)
                = OK {| birthday_value := DateTime d0 0 0 0 0 |}).
  { intros d0 Y.
    rewrite (Birthday_init_canonical (strftime_dmY d0) (year d0) (month d0)
               (day d0) (date_ok d0) (strftime_renders d0 Y)).
    destruct d0. reflexivity. }
  split; [apply A |]. split.
  - intros Y. destruct (Birthday_init (strftime_dmY d)) as [b | e] eqn:E.
    + apply Birthday_init_spec in E.
      destruct E as (dv & mv & yv & _ & S & _).
      exfalso. apply (strftime_short_year_unread d dv mv yv Y S).
    + f_equal. now apply (Birthday_init_raises (strftime_dmY d)).
  - intros b text Hb Y G. unfold get_birthday in G. rewrite Hb in G.
    injection G as <-. unfold add_birthday, mbind, eval.
    rewrite (A _ Y). eexists. split; [reflexivity |].
    unfold get_birthday. repeat split.
Qed.

Lemma birthday_text_reads_back_witness :
  Birthday_init (strftime_dmY (Date 999 3 5 eq_refl)) = Raise BIRTHDAY_ERROR
  /\ (1000 <= year (Date 1990 6 12 eq_refl) ->
      Birthday_init (strftime_dmY (Date 1990 6 12 eq_refl))
      = OK {| birthday_value := DateTime (Date 1990 6 12 eq_refl) 0 0 0 0 |})
  /\ (year (Date 1990 6 12 eq_refl) < 1000 ->
      Birthday_init (strftime_dmY (Date 1990 6 12 eq_refl))
      = Raise BIRTHDAY_ERROR)
  /\ (forall b text,
        birthday kate = Some b ->
        1000 <= year (dt_date (birthday_value b)) ->
        get_birthday kate = Some text ->
        exists r',
          add_birthday text kate = Returns r' tt
          /\ get_birthday r' = Some text
          /\ phones r' = phones kate /\ name r' = name kate).
Proof.
  split; [reflexivity |].
  apply (birthday_text_reads_back (Date 1990 6 12 eq_refl) kate).
Defined.

(** * More properties of the directory *)

Lemma dict_get_set_same (k : pystr) (v : ContactRecord) (d : dict) :
  dict_get k (dict_set k v d) = Some v.
Proof.
  induction d as [| [k' v'] d IH]; simpl.
  - now rewrite pystr_eqb_refl.
  - destruct (pystr_eqb k' k) eqn:E; simpl; now rewrite E.
Qed.

Lemma dict_get_set_other (k n : pystr) (v : ContactRecord) (d : dict) :
  n <> k -> dict_get n (dict_set k v d) = dict_get n d.
Proof.
  intros N. induction d as [| [k' v'] d IH]; simpl.
  - replace (pystr_eqb k n) with false
      by (symmetry; apply pystr_eqb_neq; congruence).
    reflexivity.
  - destruct (pystr_eqb k' k) eqn:E; simpl.
    + apply pystr_eqb_eq in E. subst k'.
      replace (pystr_eqb k n) with false
        by (symmetry; apply pystr_eqb_neq; congruence).
      reflexivity.
    + now rewrite IH.
Qed.

Lemma dict_get_del_other (k n : pystr) (d : dict) :
  n <> k -> dict_get n (dict_del k d) = dict_get n d.
Proof.
  intros N. induction d as [| [k' v'] d IH]; simpl; [reflexivity |].
  destruct (pystr_eqb k' k) eqn:E; simpl.
  - apply pystr_eqb_eq in E. subst k'.
    replace (pystr_eqb k n) with false
      by (symmetry; apply pystr_eqb_neq; congruence).
    reflexivity.
  - now rewrite IH.
Qed.

Lemma dict_get_In_key (k : pystr) (d : dict) :
  In k (map fst d) -> dict_get k d <> None.
Proof.
  induction d as [| [k' v'] d IH]; simpl; [tauto |].
  destruct (pystr_eqb k' k) eqn:E; [discriminate |].
  apply pystr_eqb_neq in E. intros [C | C]; [contradiction | auto].
Qed.

Lemma dict_get_del_same (k : pystr) (d : dict) :
  keys_unique d -> dict_get k (dict_del k d) = None.
Proof.
  unfold keys_unique.
  induction d as [| [k' v'] d IH]; simpl; intros U; [reflexivity |].
  inversion U as [| ? ? N U']; subst.
  destruct (pystr_eqb k' k) eqn:E; simpl.
  - apply pystr_eqb_eq in E. subst k'.
    destruct (dict_get k d) eqn:G; [| reflexivity].
    exfalso. apply N. apply dict_get_In in G.
    apply (in_map fst) in G. exact G.
  - rewrite E. auto.
Qed.

Lemma dict_del_absent (k : pystr) (d : dict) :
  dict_get k d = None -> dict_del k d = d.
Proof.
  induction d as [| [k' v'] d IH]; simpl; [reflexivity |].
  destruct (pystr_eqb k' k); [discriminate |].
  intros H. now rewrite IH.
Qed.

Lemma dict_del_keys (k : pystr) (d : dict) :
  keys_unique d ->
  map fst (dict_del k d)
  = filter (fun k' => negb (pystr_eqb k' k)) (map fst d).
Proof.
  unfold keys_unique.
  induction d as [| [k' v'] d IH]; simpl; intros U; [reflexivity |].
  inversion U as [| ? ? N U']; subst.
  destruct (pystr_eqb k' k) eqn:E; simpl.
  - apply pystr_eqb_eq in E. subst k'. symmetry.
    apply forallb_filter_id. apply forallb_forall. intros x Hx.
    apply negb_true_iff, pystr_eqb_neq. intros ->. contradiction.
  - f_equal. auto.
Qed.

(** X8: After [add_record], [find] of the record's name returns that record
    and [find] of any other name returns what it returned before. *)
Theorem add_record_then_find (record : ContactRecord) (book : AddressBook) :
  exists book',
    add_record record book = Returns book' tt
    /\ find (name_value (name record)) book' = Some record
    /\ forall n, n <> name_value (name record) ->
                 find n book' = find n book.
Proof.
  eexists. split; [reflexivity |]. unfold find. cbn [data].
  split; [apply dict_get_set_same |].
  intros n N. now apply dict_get_set_other.
Qed.

(** X9: After [delete], [find] of the deleted name returns [None] and
    [find] of any other name returns what it returned before; deleting
    a name that is not there leaves the directory as it was. *)
Theorem delete_then_find (n : pystr) (book : AddressBook) :
  keys_unique (data book) ->
  exists book',
    delete n book = Returns book' tt
    /\ find n book' = None
    /\ (forall m, m <> n -> find m book' = find m book)
    /\ (find n book = None -> book' = book).
Proof.
  intros U. eexists. split; [reflexivity |]. unfold find, dict_contains.
  destruct (dict_get n (data book)) eqn:G; cbn [data].
  - split; [now apply dict_get_del_same |].
    split; [intros m M; now apply dict_get_del_other | discriminate].
  - split; [assumption |]. split; [reflexivity | reflexivity].
Qed.

Lemma delete_then_find_witness :
  exists book',
    delete (str "kate") (book_of [kate; bob]) = Returns book' tt
    /\ find (str "kate") book' = None
    /\ (forall m, m <> str "kate" ->
          find m book' = find m (book_of [kate; bob]))
    /\ (find (str "kate") (book_of [kate; bob]) = None ->
        book' = book_of [kate; bob]).
Proof.
  apply (delete_then_find (str "kate") (book_of [kate; bob])).
  repeat constructor; simpl; intuition discriminate.
Defined.

(** X10: The directory keeps the order of insertion: [add_record] puts a new
    name last and leaves an existing name where it is; [delete] takes
    out the one name and leaves the others in their order. *)
Theorem directory_keeps_insertion_order (book : AddressBook)
    (record : ContactRecord) (n : pystr) :
  keys_unique (data book) ->
  map fst (data (state_of (add_record record book)))
  = (if dict_contains (name_value (name record)) (data book)
     then map fst (data book)
     else map fst (data book) ++ [name_value (name record)])
  /\ map fst (data (state_of (delete n book)))
     = filter (fun k => negb (pystr_eqb k n)) (map fst (data book)).
Proof.
  intros U. split; [apply dict_set_keys |].
  cbn [state_of delete modify].
  destruct (dict_contains n (data book)) eqn:C; cbn [data].
  - now apply dict_del_keys.
  - unfold dict_contains in C.
    destruct (dict_get n (data book)) eqn:G; [discriminate |].
    rewrite <- (dict_del_absent n (data book) G) at 1.
    now apply dict_del_keys.
Qed.

Lemma directory_keeps_insertion_order_witness :
  map fst (data (state_of (add_record kate (book_of [kate; bob]))))
  = (if dict_contains (name_value (name kate)) (data (book_of [kate; bob]))
     then map fst (data (book_of [kate; bob]))
     else map fst (data (book_of [kate; bob])) ++ [name_value (name kate)])
  /\ map fst (data (state_of (delete (str "kate") (book_of [kate; bob]))))
     = filter (fun k => negb (pystr_eqb k (str "kate")))
         (map fst (data (book_of [kate; bob]))).
Proof.
  apply (directory_keeps_insertion_order (book_of [kate; bob]) kate
           (str "kate")).
  repeat constructor; simpl; intuition discriminate.
Defined.

(** * More properties of the birthday query *)

Lemma birthday_loop_order (today end_of_window : date)
    (rs : list ContactRecord) :
  forall acc l,
    birthday_loop today end_of_window rs acc = OK l ->
    exists l',
      l = acc ++ l'
      /\ subseq (map entry_name l') (map record_name rs).
Proof.
  induction rs as [| r rs IH]; simpl; intros acc l H.
  - injection H as <-. exists []. rewrite app_nil_r.
    split; [reflexivity | constructor].
  - pose proof (birthday_step_spec today end_of_window r acc) as S.
    destruct (birthday_step today end_of_window r acc) as [acc' | x];
      cbn [bind] in H; [| discriminate].
    destruct (IH acc' l H) as (l' & -> & Q).
    destruct S as [(-> & _) | (b & occ & text & _ & _ & _ & -> & _)].
    + exists l'. split; [reflexivity | now constructor].
    + eexists. rewrite <- app_assoc. split; [reflexivity |].
      simpl. now constructor.
Qed.

Lemma query_returns (book : AddressBook) (w : World) :
  toordinal (today_of w) + 7 <= Calendar.MAXORDINAL ->
  forallb (has_occurrence_in (year (today_of w))) (dict_values (data book))
  = true ->
  exists l, get_upcoming_birthdays book w = OK l.
Proof.
  intros O S. unfold get_upcoming_birthdays. fold (today_of w).
  pose proof (toordinal_bounds (today_of w)) as B.
  destruct (date_add_ok (today_of w) 7 ltac:(lia))
    as (end_of_window & -> & _).
  cbn [bind]. now apply birthday_loop_returns.
Qed.

Lemma forallb_false_In {A} (f : A -> bool) (l : list A) :
  forallb f l = false -> exists x, In x l /\ f x = false.
Proof.
  induction l as [| a l IH]; simpl; [discriminate |].
  intros F. apply andb_false_iff in F. destruct F as [F | F].
  - exists a. auto.
  - destruct (IH F) as (x & I & E). exists x. auto.
Qed.

Lemma query_raises_on_clash (book : AddressBook) (w : World) :
  toordinal (today_of w) + 7 <= Calendar.MAXORDINAL ->
  forallb (has_occurrence_in (year (today_of w))) (dict_values (data book))
  = false ->
  exists m, get_upcoming_birthdays book w = Raise (ValueError m).
Proof.
  intros O F. unfold get_upcoming_birthdays. fold (today_of w).
  pose proof (toordinal_bounds (today_of w)) as B.
  destruct (date_add_ok (today_of w) 7 ltac:(lia))
    as (end_of_window & -> & _).
  cbn [bind].
  destruct (forallb_false_In _ _ F) as (r & I & E).
  unfold has_occurrence_in in E.
  destruct (birthday r) as [b |] eqn:Hb; [| discriminate].
  apply orb_false_iff in E. destruct E as [E L].
  apply negb_false_iff, andb_true_iff in E. rewrite !Z.eqb_eq in E.
  destruct E as [Hm Hd].
  pose proof (replace_year_feb29 _ _ Hm Hd L) as R.
  apply (birthday_loop_raises (today_of w) end_of_window _ r b _ I Hb R []).
Qed.

(** X11: The query returns exactly when the end of its window is a date of
    the calendar and no birthday of 29 February meets a year without
    one. *)
Theorem query_returns_iff (book : AddressBook) (w : World) :
  (exists l, get_upcoming_birthdays book w = OK l) <->
  toordinal (today_of w) + 7 <= Calendar.MAXORDINAL
  /\ forallb (has_occurrence_in (year (today_of w)))
       (dict_values (data book)) = true.
Proof.
  pose proof (toordinal_bounds (today_of w)) as B. split.
  - intros [l H].
    destruct (Z_le_dec (toordinal (today_of w) + 7) Calendar.MAXORDINAL)
      as [O | O].
    + split; [assumption |].
      destruct (forallb (has_occurrence_in (year (today_of w)))
                  (dict_values (data book))) eqn:F; [reflexivity |].
      destruct (query_raises_on_clash book w O F) as [m R]. congruence.
    + unfold get_upcoming_birthdays in H. fold (today_of w) in H.
      rewrite date_add_overflow in H by lia. discriminate.
  - intros [O S]. apply (query_returns book w O S).
Qed.

Lemma birthday_loop_no_birthdays (today end_of_window : date)
    (rs : list ContactRecord) :
  (forall r, In r rs -> birthday r = None) ->
  forall acc, birthday_loop today end_of_window rs acc = OK acc.
Proof.
  induction rs as [| r rs IH]; intros N acc; [reflexivity |].
  simpl. unfold birthday_step. rewrite (N r) by (left; reflexivity).
  cbn [bind]. apply IH. intros r' I. apply N. now right.
Qed.

(** X12: A directory in which no record has a birthday gives the empty list,
    except in the last seven days of the year 9999, when the query
    raises [OverflowError] whatever the directory holds. *)
Theorem no_birthdays_empty_list (book : AddressBook) (w : World) :
  (forall r, In r (dict_values (data book)) -> birthday r = None) ->
  get_upcoming_birthdays book w
  = if toordinal (today_of w) + 7 <=? Calendar.MAXORDINAL
    then OK []
    else Raise (OverflowError (Msg "date value out of range")).
Proof.
  intros N. unfold get_upcoming_birthdays. fold (today_of w).
  pose proof (toordinal_bounds (today_of w)) as B.
  destruct (Z.leb_spec (toordinal (today_of w) + 7) Calendar.MAXORDINAL)
    as [O | O].
  - destruct (date_add_ok (today_of w) 7 ltac:(lia))
      as (end_of_window & -> & _).
    cbn [bind]. now apply birthday_loop_no_birthdays.
  - rewrite date_add_overflow by lia. reflexivity.
Qed.

Lemma no_birthdays_empty_list_witness :
  get_upcoming_birthdays (book_of [bob]) (monday_10_june_2024 9 0)
  = (if toordinal (today_of (monday_10_june_2024 9 0)) + 7
        <=? Calendar.MAXORDINAL
     then OK []
     else Raise (OverflowError (Msg "date value out of range")))
  /\ get_upcoming_birthdays (book_of [bob]) (world_on 9999 12 25 eq_refl)
     = Raise (OverflowError (Msg "date value out of range")).
Proof.
  split; [| reflexivity].
  apply (no_birthdays_empty_list (book_of [bob]) (monday_10_june_2024 9 0)).
  intros r [<- | []]. reflexivity.
Defined.

(** X13: The entries come in the order of the directory, at most one for
    each record: the names of the list returned are the names of the
    records with some left out. *)
Theorem entries_follow_directory_order (book : AddressBook) (w : World) :
  toordinal (today_of w) + 7 <= Calendar.MAXORDINAL ->
  forallb (has_occurrence_in (year (today_of w))) (dict_values (data book))
  = true ->
  exists l,
    get_upcoming_birthdays book w = OK l
    /\ subseq (map entry_name l)
         (map (fun r => name_value (name r)) (dict_values (data book))).
Proof.
  intros O S.
  destruct (query_returns book w O S) as [l H].
  exists l. split; [assumption |].
  unfold get_upcoming_birthdays in H. fold (today_of w) in H.
  destruct (date_add (today_of w) 7) as [end_of_window |]; [| discriminate].
  cbn [bind] in H.
  destruct (birthday_loop_order _ _ _ _ _ H) as (l' & -> & Q). exact Q.
Qed.

Lemma entries_follow_directory_order_witness :
  exists l,
    get_upcoming_birthdays (book_of [jan; sam; bob; kate])
      (monday_10_june_2024 9 0) = OK l
    /\ subseq (map entry_name l)
         (map (fun r => name_value (name r))
            (dict_values (data (book_of [jan; sam; bob; kate])))).
Proof.
  apply (entries_follow_directory_order (book_of [jan; sam; bob; kate])
           (monday_10_june_2024 9 0)).
  - vm_compute. discriminate.
  - reflexivity.
Defined.

(** X14: Every congratulation date the query returns is a day from Monday to
    Friday, not before today and at most nine days after it. *)
Theorem congratulation_on_working_day (book : AddressBook) (w : World) :
  toordinal (today_of w) + 7 <= Calendar.MAXORDINAL ->
  forallb (has_occurrence_in (year (today_of w))) (dict_values (data book))
  = true ->
  exists l,
    get_upcoming_birthdays book w = OK l
    /\ forall e, In e l ->
         exists d,
           renders d (congratulation_date e)
           /\ 0 <= weekday d <= 4
           /\ toordinal (today_of w) <= toordinal d
              <= toordinal (today_of w) + 9.
Proof.
  intros O S.
  destruct (query_returns book w O S) as [l H].
  exists l. split; [assumption |].
  unfold get_upcoming_birthdays in H. fold (today_of w) in H.
  destruct (date_add (today_of w) 7) as [end_of_window |] eqn:E;
    [| discriminate].
  cbn [bind] in H. intros e He.
  destruct (birthday_loop_sound _ _ _ (clock_year_four w) _ _ H e He)
    as [[] | (r & Hr & b & occ & Hb & R & W & N & (d & Rd & Sat & Sun & Wk))].
  rewrite (window_in_days _ _ _ E) in W.
  exists d. split; [assumption |].
  pose proof (weekday_range occ) as WR.
  assert (K : weekday occ = 5 \/ weekday occ = 6 \/ 0 <= weekday occ <= 4)
    by lia.
  destruct K as [K | [K | K]].
  - destruct (Sat K) as [T M]. lia.
  - destruct (Sun K) as [T M]. lia.
  - rewrite (Wk K). lia.
Qed.

Lemma congratulation_on_working_day_witness :
  exists l,
    get_upcoming_birthdays (book_of [kate; sam; dana])
      (monday_10_june_2024 9 0) = OK l
    /\ forall e, In e l ->
         exists d,
           renders d (congratulation_date e)
           /\ 0 <= weekday d <= 4
           /\ toordinal (today_of (monday_10_june_2024 9 0)) <= toordinal d
              <= toordinal (today_of (monday_10_june_2024 9 0)) + 9.
Proof.
  apply (congratulation_on_working_day (book_of [kate; sam; dana])
           (monday_10_june_2024 9 0)).
  - vm_compute. discriminate.
  - reflexivity.
Defined.

Lemma unique_key_value (d : dict) (k : pystr) (a b : ContactRecord) :
  keys_unique d -> In (k, a) d -> In (k, b) d -> a = b.
Proof.
  unfold keys_unique. induction d as [| [k' v'] d IH]; simpl; [tauto |].
  intros U Ha Hb. inversion U as [| ? ? N U']; subst.
  destruct Ha as [Ha | Ha], Hb as [Hb | Hb].
  - congruence.
  - injection Ha as -> ->. exfalso. apply N.
    apply (in_map fst) in Hb. exact Hb.
  - injection Hb as -> ->. exfalso. apply N.
    apply (in_map fst) in Ha. exact Ha.
  - auto.
Qed.

Lemma dict_values_In (d : dict) (r : ContactRecord) :
  In r (dict_values d) -> exists k, In (k, r) d.
Proof.
  unfold dict_values. intros H. apply in_map_iff in H.
  destruct H as ([k r'] & <- & H). eauto.
Qed.

(** X15: The query looks at this year's occurrence only: a record whose
    birthday falls earlier in the year than today is never in the list,
    on any day of the year, also when its next birthday, in January, is
    a few days away. *)
Theorem passed_birthday_is_not_reported (book : AddressBook) (w : World)
    (n : pystr) (r : ContactRecord) (b : Birthday) :
  keys_mirror_names (data book) ->
  keys_unique (data book) ->
  find n book = Some r ->
  birthday r = Some b ->
  earlier_in_year b (today_of w) ->
  forall l, get_upcoming_birthdays book w = OK l ->
  forall e, In e l -> entry_name e <> n.
Proof.
  intros M U F Hb Early l H e He En.
  unfold get_upcoming_birthdays in H. fold (today_of w) in H.
  destruct (date_add (today_of w) 7) as [end_of_window |] eqn:E;
    [| discriminate].
  cbn [bind] in H.
  destruct (birthday_loop_sound _ _ _ (clock_year_four w) _ _ H e He)
    as [[] | (r' & Hr & b' & occ & Hb' & R & W & N & _)].
  destruct (dict_values_In _ _ Hr) as [k Hk].
  pose proof (M _ _ Hk) as Mk.
  assert (Kn : k = n) by congruence. rewrite Kn in Hk. clear Mk Kn.
  apply dict_get_In in F.
  pose proof (unique_key_value _ _ _ _ U Hk F). subst r'.
  assert (b' = b) by congruence. subst b'.
  rewrite (window_in_days _ _ _ E) in W.
  apply replace_year_occurrence in R. destruct R as (Ry & Rm & Rd).
  assert (L : toordinal occ < toordinal (today_of w)).
  { unfold toordinal. apply ymd2ord_lt; try apply date_ok.
    right. split; [assumption |]. unfold earlier_in_year in Early.
    rewrite Rm, Rd. exact Early. }
  lia.
Qed.

Lemma passed_birthday_is_not_reported_witness :
  get_upcoming_birthdays (book_of [jan; kate]) (world_on 2024 12 30 eq_refl)
  = OK []
  /\ forall l,
       get_upcoming_birthdays (book_of [jan; kate])
         (world_on 2024 12 30 eq_refl) = OK l ->
       forall e, In e l -> entry_name e <> str "jan".
Proof.
  split; [reflexivity |].
  apply (passed_birthday_is_not_reported (book_of [jan; kate])
           (world_on 2024 12 30 eq_refl) (str "jan") jan
           {| birthday_value := DateTime (Date 1990 1 1 eq_refl) 0 0 0 0 |}).
  - intros k r0 [[= <- <-] | [[= <- <-] | []]]; reflexivity.
  - repeat constructor; simpl; intuition discriminate.
  - reflexivity.
  - reflexivity.
  - left. simpl. lia.
Defined.

(** * Properties of the command handlers *)

Lemma input_error_book (repr : pystr -> pystr) (r : Main.result pystr) :
  snd (Main.input_error repr r) = result_book r.
Proof. destruct r as [b v | b [[m | m] | a | m]]; reflexivity. Qed.

Lemma returning_book {A B} (v : B) (r : Main.result A) :
  result_book (Main.returning v r) = result_book r.
Proof. destruct r; reflexivity. Qed.

Lemma dict_set_same (k : pystr) (v : ContactRecord) (d : dict) :
  dict_get k d = Some v -> dict_set k v d = d.
Proof.
  induction d as [| [k' v'] d IH]; simpl; [discriminate |].
  destruct (pystr_eqb k' k); [now intros [= ->] |].
  intros H. now rewrite IH.
Qed.

Lemma store_same (n : pystr) (r : ContactRecord) (book : AddressBook) :
  find n book = Some r -> Main.store n r book = book.
Proof.
  unfold find, Main.store. intros H. rewrite dict_set_same by assumption.
  destruct book. reflexivity.
Qed.

Lemma find_store (n : pystr) (r : ContactRecord) (book : AddressBook) :
  find n (Main.store n r book) = Some r
  /\ forall m, m <> n -> find m (Main.store n r book) = find m book.
Proof.
  unfold find, Main.store. cbn [data].
  split; [apply dict_get_set_same |].
  intros m M. now apply dict_get_set_other.
Qed.

Lemma store_inv (n : pystr) (r : ContactRecord) (book : AddressBook) :
  book_inv book -> name_value (name r) = n ->
  book_inv (Main.store n r book).
Proof.
  intros [M U] N. split; cbn [Main.store data].
  - intros k r0 H. apply dict_set_In in H.
    destruct H as [H | [-> ->]]; [now apply M | assumption].
  - now apply dict_set_unique.
Qed.

Lemma find_name (n : pystr) (r : ContactRecord) (book : AddressBook) :
  book_inv book -> find n book = Some r -> name_value (name r) = n.
Proof. intros [M _] F. apply M. now apply dict_get_In. Qed.

Lemma add_phone_name (s : pystr) (r : ContactRecord) :
  name (state_of (add_phone s r)) = name r.
Proof.
  unfold add_phone, mbind, eval. destruct (Phone_init s); reflexivity.
Qed.

Lemma add_birthday_name (s : pystr) (r : ContactRecord) :
  name (state_of (add_birthday s r)) = name r.
Proof.
  unfold add_birthday, mbind, eval. destruct (Birthday_init s); reflexivity.
Qed.

Lemma on_record_book {A} (n : pystr) (o : outcome ContactRecord A)
    (book : AddressBook) :
  result_book (Main.on_record n o book) = Main.store n (state_of o) book.
Proof. destruct o; reflexivity. Qed.

Lemma delete_inv (n : pystr) (book : AddressBook) :
  book_inv book -> book_inv (state_of (delete n book)).
Proof.
  intros I. apply (run_op_invariant (OpDelete n) book I).
Qed.

Lemma add_record_inv (r : ContactRecord) (book : AddressBook) :
  book_inv book -> book_inv (state_of (add_record r book)).
Proof.
  intros I. apply (run_op_invariant (OpAddRecord r) book I).
Qed.

(** X16: The handlers keep the directory well formed: after [add_contact],
    [change_contact], [delete_contact] or [add_birthday], with any
    arguments and whether the handler reports success or an error, each
    key is still the name of its record and no key occurs twice;
    [show_phone], [show_birthday] and [birthdays] leave the directory
    as it is. *)
Theorem handlers_keep_directory (repr : pystr -> pystr)
    (tabulate : list (list pystr) -> pystr) (args : list pystr)
    (book : AddressBook) (w : World) :
  keys_mirror_names (data book) -> keys_unique (data book) ->
  book_inv (snd (Main.add_contact repr args book))
  /\ book_inv (snd (Main.change_contact repr args book))
  /\ book_inv (snd (Main.delete_contact repr args book))
  /\ book_inv (snd (Main.add_birthday repr args book))
  /\ snd (Main.show_phone repr args book) = book
  /\ snd (Main.show_birthday repr args book) = book
  /\ snd (Main.birthdays repr tabulate book w) = book.
Proof.
  intros M U. assert (I : book_inv book) by (split; assumption).
  unfold Main.add_contact, Main.change_contact, Main.delete_contact,
    Main.add_birthday, Main.show_phone, Main.show_birthday, Main.birthdays.
  rewrite !input_error_book.
  split; [| split; [| split; [| split; [| split; [| split]]]]].
  - unfold Main.add_contact_body.
    destruct args as [| n [| phone rest]]; try exact I.
    destruct (find n book) as [record |] eqn:F.
    + destruct phone; [exact I |].
      rewrite returning_book, on_record_book. apply store_inv; [exact I |].
      rewrite add_phone_name. now apply (find_name n record book).
    + destruct phone; [now apply add_record_inv |].
      rewrite returning_book, on_record_book.
      apply store_inv; [now apply add_record_inv |].
      now rewrite add_phone_name.
  - unfold Main.change_contact_body.
    destruct args as [| n [| o [| nw [| x rest]]]]; try exact I.
    destruct (find n book) as [record |] eqn:F; [| exact I].
    rewrite returning_book, on_record_book. apply store_inv; [exact I |].
    now apply (find_name n record book).
  - unfold Main.delete_contact_body.
    destruct (data book) eqn:D; [exact I |].
    destruct args as [| n rest]; [exact I |].
    destruct (find n book); [now apply delete_inv | exact I].
  - unfold Main.add_birthday_body.
    destruct args as [| n [| b [| x rest]]]; try exact I.
    destruct (find n book) as [record |] eqn:F; [| exact I].
    rewrite returning_book, on_record_book. apply store_inv; [exact I |].
    rewrite add_birthday_name. now apply (find_name n record book).
  - unfold Main.show_phone_body. destruct args as [| n rest]; [reflexivity |].
    destruct (find n book); reflexivity.
  - unfold Main.show_birthday_body.
    destruct args as [| n rest]; [reflexivity |].
    destruct (find n book) as [record |]; [| reflexivity].
    destruct (get_birthday record); reflexivity.
  - unfold Main.birthdays_body.
    destruct (get_upcoming_birthdays book w) as [[| e l] | x]; reflexivity.
Qed.

Lemma handlers_keep_directory_witness :
  book_inv (snd (Main.add_contact Main.quoted
                   [str "ann"; str "12"] (book_of [kate; bob])))
  /\ book_inv (snd (Main.change_contact Main.quoted
                      [str "ann"; str "12"] (book_of [kate; bob])))
  /\ book_inv (snd (Main.delete_contact Main.quoted
                      [str "ann"; str "12"] (book_of [kate; bob])))
  /\ book_inv (snd (Main.add_birthday Main.quoted
                      [str "ann"; str "12"] (book_of [kate; bob])))
  /\ snd (Main.show_phone Main.quoted [str "ann"; str "12"]
            (book_of [kate; bob])) = book_of [kate; bob]
  /\ snd (Main.show_birthday Main.quoted [str "ann"; str "12"]
            (book_of [kate; bob])) = book_of [kate; bob]
  /\ snd (Main.birthdays Main.quoted Main.rows (book_of [kate; bob])
            (monday_10_june_2024 9 0)) = book_of [kate; bob].
Proof.
  apply (handlers_keep_directory Main.quoted Main.rows
           [str "ann"; str "12"] (book_of [kate; bob])
           (monday_10_june_2024 9 0)).
  - intros k r0 [[= <- <-] | [[= <- <-] | []]]; reflexivity.
  - repeat constructor; simpl; intuition discriminate.
Defined.

(** X17: [add_contact] with a phone of ten digits: a new name is added with
    that one phone ("Contact added."), an existing contact gets the
    phone after those it has ("Contact updated."); [show_phone] then
    lists the phones in that order, and no other contact changes. *)
Theorem add_contact_valid_phone (repr : pystr -> pystr)
    (n phone : pystr) (rest : list pystr) (book : AddressBook) :
  Unicode.len phone = 10 ->
  forallb Unicode.char_isdigit phone = true ->
  let before :=
    match find n book with
    | Some r => map phone_value (phones r)
    | None => []
    end in
  exists book',
    Main.add_contact repr (n :: phone :: rest) book
    = (match find n book with
       | Some _ => str "Contact updated."
       | None => str "Contact added."
       end, book')
    /\ Main.show_phone repr [n] book'
       = (join (str "; ") (before ++ [phone]), book')
    /\ forall m, m <> n -> find m book' = find m book.
Proof.
  intros L F before. unfold Main.add_contact, Main.add_contact_body.
  assert (P : phone <> []) by (intros ->; discriminate).
  destruct (find n book) as [record |] eqn:E;
    (destruct phone as [| c phone']; [contradiction |]).
  - unfold add_phone, mbind, eval.
    rewrite (Phone_init_ok _ L F). cbn [modify Main.on_record Main.returning
      Main.input_error].
    eexists. split; [reflexivity |].
    unfold Main.show_phone, Main.show_phone_body.
    destruct (find_store n (set_phones (phones record ++
                [{| phone_value := c :: phone' |}]) record) book) as [S O].
    rewrite S. cbn [Main.input_error phones set_phones].
    rewrite map_app. split; [reflexivity | exact O].
  - unfold add_phone, mbind, eval.
    rewrite (Phone_init_ok _ L F). cbn [modify Main.on_record Main.returning
      Main.input_error].
    eexists. split; [reflexivity |].
    unfold Main.show_phone, Main.show_phone_body.
    match goal with
    | |- context [Main.store n ?r ?b] =>
        destruct (find_store n r b) as [S O]
    end.
    rewrite S. cbn [Main.input_error phones set_phones Record_init].
    split; [reflexivity |].
    intros m M.
    transitivity (find m (state_of (add_record (Record_init n) book)));
      [exact (O m M) |].
    unfold find. cbn [state_of add_record modify data Record_init name
      name_value].
    now apply dict_get_set_other.
Qed.

Lemma add_contact_valid_phone_witness :
  exists book',
    Main.add_contact Main.quoted [str "kate"; str "0987654321"]
      (book_of [kate; bob])
    = (str "Contact updated.", book')
    /\ Main.show_phone Main.quoted [str "kate"] book'
       = (str "1234567890; 0987654321", book')
    /\ forall m, m <> str "kate" ->
                 find m book' = find m (book_of [kate; bob]).
Proof.
  apply (add_contact_valid_phone Main.quoted (str "kate")
           (str "0987654321") [] (book_of [kate; bob])); reflexivity.
Defined.

Lemma Phone_init_fail (s : pystr) :
  ~ (Unicode.len s = 10 /\ forallb Unicode.char_isdigit s = true) ->
  Phone_init s = Raise PHONE_ERROR.
Proof.
  intros N. destruct (Phone_init_cases s) as [(_ & L & F) | (E & _)];
    [tauto | assumption].
Qed.

(** X18: [add_contact] with a phone that is not ten digits replies with the
    error of [Phone]; an existing contact is left as it was, but a new
    name has by then been added and stays in the directory, with no
    phone. *)
Theorem add_contact_invalid_phone (repr : pystr -> pystr)
    (n phone : pystr) (rest : list pystr) (book : AddressBook) :
  phone <> [] ->
  ~ (Unicode.len phone = 10 /\ forallb Unicode.char_isdigit phone = true) ->
  exists book',
    Main.add_contact repr (n :: phone :: rest) book
    = (str "ValueError: Phone number must be exactly 10 digits.", book')
    /\ (find n book = None -> find n book' = Some (Record_init n))
    /\ (find n book <> None -> book' = book)
    /\ forall m, m <> n -> find m book' = find m book.
Proof.
  intros P N. unfold Main.add_contact, Main.add_contact_body.
  destruct (find n book) as [record |] eqn:E;
    (destruct phone as [| c phone']; [contradiction |]).
  - unfold add_phone, mbind, eval. rewrite (Phone_init_fail _ N).
    cbn [Main.on_record Main.returning Main.input_error PHONE_ERROR
         Main.str_of_message].
    rewrite (store_same n record book E).
    eexists. split; [reflexivity |].
    split; [discriminate |]. split; reflexivity.
  - unfold add_phone, mbind, eval. rewrite (Phone_init_fail _ N).
    cbn [Main.on_record Main.returning Main.input_error PHONE_ERROR
         Main.str_of_message].
    eexists. split; [reflexivity |].
    match goal with
    | |- context [Main.store n ?r ?b] =>
        destruct (find_store n r b) as [S O]
    end.
    split; [intros _; exact S |]. split; [congruence |].
    intros m M.
    transitivity (find m (state_of (add_record (Record_init n) book)));
      [exact (O m M) |].
    unfold find. cbn [state_of add_record modify data Record_init name
      name_value].
    now apply dict_get_set_other.
Qed.

Lemma add_contact_invalid_phone_witness :
  exists book',
    Main.add_contact Main.quoted [str "ann"; str "12345"]
      (book_of [kate; bob])
    = (str "ValueError: Phone number must be exactly 10 digits.", book')
    /\ (find (str "ann") (book_of [kate; bob]) = None ->
        find (str "ann") book' = Some (Record_init (str "ann")))
    /\ (find (str "ann") (book_of [kate; bob]) <> None ->
        book' = book_of [kate; bob])
    /\ forall m, m <> str "ann" ->
                 find m book' = find m (book_of [kate; bob]).
Proof.
  apply (add_contact_invalid_phone Main.quoted (str "ann") (str "12345") []
           (book_of [kate; bob])).
  - discriminate.
  - intros [L _]. discriminate.
Defined.

(** X19: [change_contact] on an existing contact always replies "Contact
    changed.": the phones become those [edit_phone] leaves, whatever
    the new text is, and when the contact has no phone [old] the
    directory is exactly as before. *)
Theorem change_contact_always_changed (repr : pystr -> pystr)
    (n old_phone new_phone : pystr) (book : AddressBook)
    (r : ContactRecord) :
  find n book = Some r ->
  exists book' r',
    Main.change_contact repr [n; old_phone; new_phone] book
    = (str "Contact changed.", book')
    /\ find n book' = Some r'
    /\ phones r' = edit_loop old_phone new_phone (phones r)
    /\ name r' = name r /\ birthday r' = birthday r
    /\ (find_phone old_phone r = None -> book' = book)
    /\ forall m, m <> n -> find m book' = find m book.
Proof.
  intros F. unfold Main.change_contact, Main.change_contact_body.
  rewrite F. cbn [edit_phone modify Main.on_record Main.returning
    Main.input_error].
  match goal with
  | |- context [Main.store n ?x ?b] => destruct (find_store n x b) as [S O]
  end.
  eexists. eexists. split; [reflexivity |]. split; [exact S |].
  cbn [phones set_phones name birthday].
  repeat (split; [reflexivity |]). split; [| exact O].
  intros A. unfold find_phone in A.
  rewrite edit_loop_absent by (now apply find_loop_none).
  rewrite set_phones_same. now apply store_same.
Qed.

Lemma change_contact_always_changed_witness :
  exists book' r',
    Main.change_contact Main.quoted [str "kate"; str "000"; str "x"]
      (book_of [kate; bob])
    = (str "Contact changed.", book')
    /\ find (str "kate") book' = Some r'
    /\ phones r' = edit_loop (str "000") (str "x") (phones kate)
    /\ name r' = name kate /\ birthday r' = birthday kate
    /\ (find_phone (str "000") kate = None -> book' = book_of [kate; bob])
    /\ forall m, m <> str "kate" ->
                 find m book' = find m (book_of [kate; bob]).
Proof.
  apply (change_contact_always_changed Main.quoted (str "kate") (str "000")
           (str "x") (book_of [kate; bob]) kate).
  reflexivity.
Defined.

Lemma delete_then_find_parts (n : pystr) (book : AddressBook) :
  keys_unique (data book) ->
  find n (state_of (delete n book)) = None
  /\ forall m, m <> n -> find m (state_of (delete n book)) = find m book.
Proof.
  intros U. unfold find, dict_contains. cbn [state_of delete modify].
  unfold dict_contains.
  destruct (dict_get n (data book)) eqn:G; cbn [data].
  - split; [now apply dict_get_del_same |].
    intros m M. now apply dict_get_del_other.
  - split; [assumption | reflexivity].
Qed.

(** X20: [delete_contact] tests the directory where it means to test its
    arguments: on an empty directory it replies "Name is missing" even
    when a name is given, and without a name on a directory that is not
    empty the reply is the [IndexError] of [args[0]].  With a name it
    deletes the contact, or replies that it is not found; in every
    error case the directory is unchanged. *)
Theorem delete_contact_replies (repr : pystr -> pystr)
    (args : list pystr) (book : AddressBook) :
  (data book = [] ->
   Main.delete_contact repr args book
   = (str "IndexError: Name is missing. usage: delete <name>", book))
  /\ (data book <> [] -> args = [] ->
      Main.delete_contact repr args book
      = (str "IndexError: list index out of range", book))
  /\ (forall n rest,
        args = n :: rest -> data book <> [] -> find n book = None ->
        Main.delete_contact repr args book
        = (str "KeyError: "
           ++ repr (str "Contact " ++ n ++ str " not found."), book))
  /\ (forall n rest,
        args = n :: rest -> find n book <> None ->
        keys_unique (data book) ->
        exists book',
          Main.delete_contact repr args book
          = (str "Contact successfully deleted", book')
          /\ find n book' = None
          /\ forall m, m <> n -> find m book' = find m book).
Proof.
  unfold Main.delete_contact, Main.delete_contact_body.
  split; [| split; [| split]].
  - intros ->. reflexivity.
  - intros D ->. destruct (data book); [contradiction | reflexivity].
  - intros n rest -> D F. destruct (data book); [contradiction |].
    now rewrite F.
  - intros n rest -> F U.
    destruct (delete_then_find_parts n book U) as (S & O). clear U.
    destruct (data book) eqn:D.
    + exfalso. apply F. unfold find. now rewrite D.
    + destruct (find n book) eqn:G; [| contradiction].
      eexists. split; [reflexivity |]. split; assumption.
Qed.

(** X21: The [add-birthday] command with a text in the form DD.MM.YYYY
    of a date of the calendar whose year has four digits (1000 or
    later), on an existing contact, replies "Contact updated"; the
    [show-birthday] command then replies with that very text, and no
    other contact changes. *)
Theorem add_then_show_birthday (repr : pystr -> pystr) (n s : pystr)
    (book : AddressBook) (r : ContactRecord) :
  find n book = Some r ->
  canonical_birthday s = true ->
  1000 <= year_of_text s ->
  exists book',
    Main.add_birthday repr [n; s] book = (str "Contact updated", book')
    /\ Main.show_birthday repr [n] book' = (s, book')
    /\ forall m, m <> n -> find m book' = find m book.
Proof.
  intros F C Y. unfold Main.add_birthday, Main.add_birthday_body. rewrite F.
  unfold canonical_birthday in C. unfold year_of_text in Y.
  destruct (canonical_fields s) as [[[y m] d] |] eqn:K; [| discriminate].
  unfold add_birthday, mbind, eval.
  rewrite (Birthday_init_canonical s y m d C K).
  cbn [modify Main.on_record Main.returning Main.input_error].
  match goal with
  | |- context [Main.store n ?x ?b] => destruct (find_store n x b) as [S O]
  end.
  eexists. split; [reflexivity |]. split; [| exact O].
  unfold Main.show_birthday, Main.show_birthday_body. rewrite S.
  unfold get_birthday.
  cbn [birthday set_birthday birthday_value dt_date Main.input_error].
  do 2 f_equal. apply (renders_unique _ _ (y, m, d)); [| assumption].
  now apply (strftime_renders (Date y m d C)).
Qed.

Lemma add_then_show_birthday_witness :
  exists book',
    Main.add_birthday Main.quoted [str "bob"; str "29.02.2024"]
      (book_of [kate; bob])
    = (str "Contact updated", book')
    /\ Main.show_birthday Main.quoted [str "bob"] book'
       = (str "29.02.2024", book')
    /\ forall m, m <> str "bob" ->
                 find m book' = find m (book_of [kate; bob]).
Proof.
  apply (add_then_show_birthday Main.quoted (str "bob") (str "29.02.2024")
           (book_of [kate; bob]) bob);
    [reflexivity | reflexivity | vm_compute; discriminate].
Defined.

(** X22: The [add-birthday] command with a text [Birthday] does not accept
    replies with the error of [Birthday] and leaves the directory as it
    was; with a name that is not in the directory it replies with a
    [KeyError] and changes nothing either. *)
Theorem add_birthday_command_fails_cleanly (repr : pystr -> pystr)
    (n s : pystr) (book : AddressBook) :
  (forall b, Birthday_init s <> OK b) \/ find n book = None ->
  Main.add_birthday repr [n; s] book
  = (match find n book with
     | Some _ => str "ValueError: Invalid date format. Use DD.MM.YYYY"
     | None =>
         str "KeyError: " ++ repr (str "Contact " ++ n ++ str " not found.")
     end, book).
Proof.
  intros H. unfold Main.add_birthday, Main.add_birthday_body.
  destruct (find n book) as [r |] eqn:F; [| reflexivity].
  destruct H as [H | H]; [| discriminate].
  unfold add_birthday, mbind, eval.
  destruct (Birthday_init s) as [b | e] eqn:B;
    [exfalso; apply (H b); reflexivity |].
  apply Birthday_init_raises in B. subst e.
  cbn [Main.on_record Main.returning Main.input_error BIRTHDAY_ERROR
       Main.str_of_message].
  now rewrite (store_same n r book F).
Qed.

Lemma add_birthday_command_fails_cleanly_witness :
  Main.add_birthday Main.quoted [str "kate"; str "31.02.2000"]
    (book_of [kate; bob])
  = (match find (str "kate") (book_of [kate; bob]) with
     | Some _ => str "ValueError: Invalid date format. Use DD.MM.YYYY"
     | None =>
         str "KeyError: "
         ++ Main.quoted (str "Contact " ++ str "kate" ++ str " not found.")
     end, book_of [kate; bob]).
Proof.
  apply (add_birthday_command_fails_cleanly Main.quoted (str "kate")
           (str "31.02.2000") (book_of [kate; bob])).
  left. intros b. vm_compute. discriminate.
Defined.

Lemma replace_year_raises_day (d : date) (y : Z) (e : exn) :
  1 <= y <= 9999 -> replace_year d y = Raise e ->
  e = ValueError (Msg "day is out of range for month").
Proof.
  intros Hy R. unfold replace_year in R.
  pose proof (new_date_spec y (month d) (day d)) as N. rewrite R in N.
  destruct N as [_ ->]. f_equal. unfold date_error.
  pose proof (date_fields d) as (_ & Hm & _).
  unfold Calendar.MINYEAR, Calendar.MAXYEAR.
  replace ((1 <=? y) && (y <=? 9999)) with true
    by (symmetry; apply andb_true_iff; rewrite !Z.leb_le; lia).
  replace ((1 <=? month d) && (month d <=? 12)) with true
    by (symmetry; apply andb_true_iff; rewrite !Z.leb_le; lia).
  reflexivity.
Qed.

Lemma birthday_loop_raises_day (today end_of_window : date)
    (rs : list ContactRecord) :
  forall acc e,
    birthday_loop today end_of_window rs acc = Raise e ->
    e = ValueError (Msg "day is out of range for month").
Proof.
  induction rs as [| r rs IH]; simpl; intros acc e H; [discriminate |].
  pose proof (birthday_step_spec today end_of_window r acc) as S.
  destruct (birthday_step today end_of_window r acc) as [acc' | x];
    cbn [bind] in H; [eauto |].
  injection H as <-. destruct S as (b & m & _ & _ & R).
  pose proof (date_fields today) as (Hy & _).
  apply (replace_year_raises_day _ _ _ Hy R).
Qed.

(** X23: What the [birthdays] command replies when there is no table to
    show: the [ValueError] of the date when a contact born on 29
    February meets a year without one; "No contacts that need to be
    congratulated" when no contact has a birthday; and "Unexpected
    error" in the last seven days of the year 9999.  The directory is
    the same afterwards. *)
Theorem birthdays_replies_without_table (repr : pystr -> pystr)
    (tabulate : list (list pystr) -> pystr) (book : AddressBook)
    (w : World) :
  (toordinal (today_of w) + 7 <= Calendar.MAXORDINAL ->
   forallb (has_occurrence_in (year (today_of w)))
     (dict_values (data book)) = false ->
   Main.birthdays repr tabulate book w
   = (str "ValueError: day is out of range for month", book))
  /\ (toordinal (today_of w) + 7 <= Calendar.MAXORDINAL ->
      (forall r, In r (dict_values (data book)) -> birthday r = None) ->
      Main.birthdays repr tabulate book w
      = (str "IndexError: No contacts that need to be congratulated by day next week.",
         book))
  /\ (Calendar.MAXORDINAL < toordinal (today_of w) + 7 ->
      Main.birthdays repr tabulate book w
      = (str "Unexpected error: date value out of range", book)).
Proof.
  unfold Main.birthdays, Main.birthdays_body.
  pose proof (toordinal_bounds (today_of w)) as B.
  split; [| split].
  - intros O F. destruct (query_raises_on_clash book w O F) as [m G].
    rewrite G. pose proof G as G'.
    unfold get_upcoming_birthdays in G'. fold (today_of w) in G'.
    destruct (date_add_ok (today_of w) 7 ltac:(lia))
      as (end_of_window & E & _).
    rewrite E in G'. cbn [bind] in G'.
    apply birthday_loop_raises_day in G'. injection G' as ->. reflexivity.
  - intros O N.
    assert (G : get_upcoming_birthdays book w = OK []).
    { unfold get_upcoming_birthdays. fold (today_of w).
      destruct (date_add_ok (today_of w) 7 ltac:(lia))
        as (end_of_window & -> & _).
      cbn [bind]. now apply birthday_loop_no_birthdays. }
    rewrite G. reflexivity.
  - intros O. unfold get_upcoming_birthdays. fold (today_of w).
    rewrite date_add_overflow by lia. reflexivity.
Qed.
